(** * sol-trade-sdk developer scripts: the test wrapper and the error-tolerance auditor

  A shallow embedding of [scripts/run_rust_tests.py] and
  [scripts/check_error_tolerance.py].

  Modelling conventions.
  - A Python [str] is a [string]; the character classes of [re] and of the
    [str] methods ([strip], [lower]) are the ones Python applies to the
    ASCII range, bytes above 127 being ordinary non-space, non-word,
    caseless characters.  The model is exact on ASCII text.
  - [subprocess.run], the file system and [Path.rglob] are not code of the
    scripts: they enter as oracles (function arguments).
  - An exception is a value: a computation that can raise returns an
    [outcome]. *)

From Stdlib Require Import Bool Arith ZArith Lia List Ascii String DecimalString.
Import ListNotations.

Open Scope string_scope.

(** ** Python text primitives *)

Module Text.

Definition code (c : ascii) : nat := nat_of_ascii c.

Definition in_range (lo hi c : ascii) : bool :=
  (code lo <=? code c)%nat && (code c <=? code hi)%nat.

(** [str.isspace] on the ASCII range: TAB, LF, VT, FF, CR, the four
    separators FS, GS, RS, US and the space. *)
Definition is_space (c : ascii) : bool :=
  ((9 <=? code c) && (code c <=? 13))%nat
  || ((28 <=? code c) && (code c <=? 32))%nat.

Definition is_digit (c : ascii) : bool := in_range "0" "9" c.

Definition is_lower (c : ascii) : bool := in_range "a" "z" c.

Definition is_upper (c : ascii) : bool := in_range "A" "Z" c.

(** The class [\w]: letters, digits and the underscore. *)
Definition is_word (c : ascii) : bool :=
  is_lower c || is_upper c || is_digit c || Ascii.eqb c "_".

Definition newline : ascii := ascii_of_nat 10.

Definition nl : string := String newline EmptyString.

(** The double quote, as a one-character text. *)
Definition dq : string := String (ascii_of_nat 34) EmptyString.

Definition lower_char (c : ascii) : ascii :=
  if is_upper c then ascii_of_nat (code c + 32) else c.

(** [s.lower()] *)
Fixpoint lower (s : string) : string :=
  match s with
  | EmptyString => EmptyString
  | String c s' => String (lower_char c) (lower s')
  end.

(** [s.startswith(p)] *)
Fixpoint startswith (p s : string) : bool :=
  match p, s with
  | EmptyString, _ => true
  | String _ _, EmptyString => false
  | String a p', String b s' => Ascii.eqb a b && startswith p' s'
  end.

(** [p in s] *)
Fixpoint contains (p s : string) : bool :=
  startswith p s ||
  match s with
  | EmptyString => false
  | String _ s' => contains p s'
  end.

Fixpoint lstrip (s : string) : string :=
  match s with
  | EmptyString => EmptyString
  | String c s' => if is_space c then lstrip s' else s
  end.

Fixpoint rstrip (s : string) : string :=
  match s with
  | EmptyString => EmptyString
  | String c s' =>
      match rstrip s' with
      | EmptyString => if is_space c then EmptyString else String c EmptyString
      | t => String c t
      end
  end.

(** [s.strip()] *)
Definition strip (s : string) : string := rstrip (lstrip s).

(** [s.split(sep)] for a one-character separator: never the empty list. *)
Fixpoint split (sep : ascii) (s : string) : list string :=
  match s with
  | EmptyString => [EmptyString]
  | String c s' =>
      if Ascii.eqb c sep then EmptyString :: split sep s'
      else match split sep s' with
           | h :: t => String c h :: t
           | [] => [String c EmptyString]
           end
  end.

(** [sep.join(xs)] *)
Fixpoint join (sep : string) (xs : list string) : string :=
  match xs with
  | [] => EmptyString
  | [x] => x
  | x :: rest => x ++ sep ++ join sep rest
  end.

(** [s[:n]] *)
Fixpoint take (n : nat) (s : string) : string :=
  match n, s with
  | O, _ => EmptyString
  | S _, EmptyString => EmptyString
  | S n', String c s' => String c (take n' s')
  end.

(** [str(n)] for a length or a count *)
Definition str_nat (n : nat) : string :=
  NilEmpty.string_of_uint (Nat.to_uint n).

(** [str(z)] for an [int] *)
Definition str_int (z : Z) : string :=
  NilZero.string_of_int (Z.to_int z).

(** Truthiness of an optional text ([None] and the empty text are false). *)
Definition truthy (o : option string) : bool :=
  match o with
  | Some (String _ _) => true
  | _ => false
  end.

End Text.

(** ** The fragment of Python's [re] the scripts use

  A backtracking matcher in continuation-passing style: alternatives are
  tried left to right, a greedy repetition tries one more iteration first
  and a lazy one tries to stop first, as [re] does, so that the groups of
  the first match found are the groups [re] reports. *)

Module Re.

Import Text.

Inductive regex : Type :=
| Eps
| Chr (p : ascii -> bool)                 (* one character of a class *)
| Seq (r1 r2 : regex)
| Alt (r1 r2 : regex)
| Rep (greedy : bool) (lo : nat) (hi : option nat) (r : regex)
| Group (i : nat) (r : regex)             (* capturing group number i *)
| NotAhead (r : regex)                    (* negative lookahead *)
| WordB                                   (* \b *)
| Bol                                     (* ^ *)
| Eol.                                    (* $ *)

(** Captured groups, latest binding first. *)
Definition caps := list (nat * string).

Fixpoint group (i : nat) (cs : caps) : option string :=
  match cs with
  | [] => None
  | (j, s) :: rest => if Nat.eqb i j then Some s else group i rest
  end.

(** A position in the subject: the characters before it, nearest first,
    and the text after it. *)
Definition cont := list ascii -> string -> caps -> option caps.

Definition prev_is_word (b : list ascii) : bool :=
  match b with
  | c :: _ => is_word c
  | [] => false
  end.

Definition next_is_word (a : string) : bool :=
  match a with
  | String c _ => is_word c
  | EmptyString => false
  end.

Definition below (n : nat) (hi : option nat) : bool :=
  match hi with
  | None => true
  | Some h => (n <? h)%nat
  end.

Fixpoint run (r : regex) (k : cont) (b : list ascii) (a : string) (cs : caps)
  {struct r} : option caps :=
  match r with
  | Eps => k b a cs
  | Chr p =>
      match a with
      | String c a' => if p c then k (c :: b) a' cs else None
      | EmptyString => None
      end
  | Seq r1 r2 => run r1 (run r2 k) b a cs
  | Alt r1 r2 =>
      match run r1 k b a cs with
      | Some res => Some res
      | None => run r2 k b a cs
      end
  | Rep greedy lo hi r1 =>
      (fix loop (fuel n : nat) (b : list ascii) (a : string) (cs : caps)
         {struct fuel} : option caps :=
         match fuel with
         | O => if (lo <=? n)%nat then k b a cs else None
         | S fuel' =>
             let more (_ : unit) :=
               if below n hi then
                 run r1
                   (fun b' a' cs' =>
                      if (length a' <? length a)%nat
                      then loop fuel' (S n) b' a' cs'
                      else None)
                   b a cs
               else None in
             let stop (_ : unit) :=
               if (lo <=? n)%nat then k b a cs else None in
             if greedy then
               match more tt with
               | Some res => Some res
               | None => stop tt
               end
             else
               match stop tt with
               | Some res => Some res
               | None => more tt
               end
         end) (length a) O b a cs
  | Group i r1 =>
      run r1
        (fun b' a' cs' => k b' a' ((i, take (length a - length a') a) :: cs'))
        b a cs
  | NotAhead r1 =>
      match run r1 (fun _ _ cs' => Some cs') b a cs with
      | Some _ => None
      | None => k b a cs
      end
  | WordB =>
      if xorb (prev_is_word b) (next_is_word a) then k b a cs else None
  | Bol =>
      match b with
      | [] => k b a cs
      | _ :: _ => None
      end
  | Eol =>
      match a with
      | EmptyString => k b a cs
      | String c EmptyString => if Ascii.eqb c newline then k b a cs else None
      | _ => None
      end
  end.

Definition accept : cont := fun _ _ cs => Some cs.

(** [pattern.match(s)]: a match at the start of [s]. *)
Definition re_match (r : regex) (s : string) : option caps :=
  run r accept [] s [].

Fixpoint search_from (r : regex) (b : list ascii) (a : string) : option caps :=
  match run r accept b a [] with
  | Some cs => Some cs
  | None =>
      match a with
      | EmptyString => None
      | String c a' => search_from r (c :: b) a'
      end
  end.

(** [re.search(pattern, s)], as the truth value the scripts test. *)
Definition re_search (r : regex) (s : string) : bool :=
  match search_from r [] s with
  | Some _ => true
  | None => false
  end.

(** *** Pattern syntax *)

Definition chr (c : ascii) : regex := Chr (Ascii.eqb c).

(** A literal text (each character escaped or ordinary in the source). *)
Fixpoint lit (s : string) : regex :=
  match s with
  | EmptyString => Eps
  | String c EmptyString => chr c
  | String c s' => Seq (chr c) (lit s')
  end.

(** [.]: any character but the newline. *)
Definition dot : regex := Chr (fun c => negb (Ascii.eqb c newline)).

Definition space : regex := Chr is_space.     (* \s *)
Definition word : regex := Chr is_word.       (* \w *)

(** [[^...]]: any character not listed, the newline included. *)
Definition none_of (s : string) : regex :=
  Chr (fun c => negb (contains (String c EmptyString) s)).

(** [[...]] for a list of characters. *)
Definition one_of (s : string) : regex :=
  Chr (fun c => contains (String c EmptyString) s).

Definition star (r : regex) : regex := Rep true 0 None r.          (* r*  *)
Definition plus (r : regex) : regex := Rep true 1 None r.          (* r+  *)
Definition plus_lazy (r : regex) : regex := Rep false 1 None r.    (* r+? *)
Definition opt (r : regex) : regex := Rep true 0 (Some 1) r.       (* r?  *)
Definition upto (n : nat) (r : regex) : regex := Rep true 0 (Some n) r.

Fixpoint seqs (rs : list regex) : regex :=
  match rs with
  | [] => Eps
  | [r] => r
  | r :: rest => Seq r (seqs rest)
  end.

End Re.

(** List concatenation, written apart from the [++] of texts. *)
Notation "xs +++ ys" := (List.app xs ys) (at level 60, right associativity).

(** ** Effects of a script: standard output, exceptions and [sys.exit] *)

Module Py.

(** The exceptions [subprocess.run] can raise, as [run_command] tells them
    apart: [subprocess.TimeoutExpired], and any other [Exception] with the
    text [str(e)]. *)
Inductive exn : Type :=
| TimeoutExpired
| OtherException (text : string).

Inductive outcome (A : Type) : Type :=
| Returned (a : A)
| Raised (e : exn)
| Exited (code : Z).

Arguments Returned {A} a.
Arguments Raised {A} e.
Arguments Exited {A} code.

Inductive stream : Type := Stdout | Stderr.

(** What has been printed so far, oldest first. *)
Definition log := list (stream * string).

(** A computation reads the log and returns an outcome and the new log. *)
Definition py (A : Type) : Type := log -> outcome A * log.

Definition ret {A : Type} (a : A) : py A := fun l => (Returned a, l).

Definition bind {A B : Type} (m : py A) (f : A -> py B) : py B :=
  fun l =>
    match m l with
    | (Returned a, l') => f a l'
    | (Raised e, l') => (Raised e, l')
    | (Exited c, l') => (Exited c, l')
    end.

Definition raise {A : Type} (e : exn) : py A := fun l => (Raised e, l).

(** [sys.exit(code)] *)
Definition sys_exit {A : Type} (code : Z) : py A := fun l => (Exited code, l).

(** [print(text)] and [print(text, file=sys.stderr)] *)
Definition print (text : string) : py unit :=
  fun l => (Returned tt, l +++ [(Stdout, text)]).

Definition eprint (text : string) : py unit :=
  fun l => (Returned tt, l +++ [(Stderr, text)]).

(** [try: m  except ... as e: handler e]: the handler takes every exception
    of [exn]; [sys.exit] is not one of them. *)
Definition try_except {A : Type} (m : py A) (handler : exn -> py A) : py A :=
  fun l =>
    match m l with
    | (Raised e, l') => handler e l'
    | r => r
    end.

(** The exit status of the process whose [main()] ended with this outcome:
    0 when it returned, the code of [sys.exit], 1 for an uncaught exception. *)
Definition exit_status {A : Type} (o : outcome A) : Z :=
  match o with
  | Returned _ => 0%Z
  | Exited c => c
  | Raised _ => 1%Z
  end.

(** The texts printed on standard output. *)
Definition stdout_of (l : log) : list string :=
  map snd (filter (fun e => match fst e with Stdout => true | Stderr => false end) l).

(** [pathlib.Path]: the anchor (empty for a relative path) and the names
    below it, innermost first. *)
Record Path : Type := mkPath { anchor : string; names : list string }.

(** [p / name] *)
Definition child (p : Path) (name : string) : Path :=
  mkPath (anchor p) (name :: names p).

(** [str(p)] *)
Definition path_str (p : Path) : string :=
  match anchor p, names p with
  | EmptyString, [] => "."
  | a, ns => a ++ Text.join "/" (rev ns)
  end.

End Py.

Declare Scope py_scope.
Delimit Scope py_scope with py.
Notation "x <- m ;; k" := (Py.bind m (fun x => k))
  (at level 61, m at next level, right associativity) : py_scope.
Notation "m ;; k" := (Py.bind m (fun _ => k))
  (at level 61, right associativity) : py_scope.

(** ** [scripts/run_rust_tests.py] *)

Module RunRustTests.

Import Text Re Py.
Local Open Scope py_scope.

Inductive TestStatus : Type := PASSED | FAILED | IGNORED | TIMEOUT.

(** The value of each member of the enumeration. *)
Definition TestStatus_value (s : TestStatus) : string :=
  match s with
  | PASSED => "✅ 通过"
  | FAILED => "❌ 失败"
  | IGNORED => "⚠️  忽略"
  | TIMEOUT => "⏱️  超时"
  end.

Definition TestStatus_eqb (a b : TestStatus) : bool :=
  match a, b with
  | PASSED, PASSED | FAILED, FAILED | IGNORED, IGNORED | TIMEOUT, TIMEOUT => true
  | _, _ => false
  end.

(** The dataclass [TestResult].  [duration] is only ever the literal 0.0. *)
Record TestResult : Type := mkTestResult {
  test_name : string;
  status : TestStatus;
  duration : Z;
  error_message : string;
  error_type : string;
  suggestion : string;
  fixable : bool
}.

(** [subprocess.CompletedProcess] with captured text output. *)
Record CompletedProcess : Type := mkCompleted {
  returncode : Z;
  stdout : string;
  stderr : string
}.

(** The world outside the script: the current directory, which paths exist,
    and what [subprocess.run(command, cwd=..., timeout=...)] does, either a
    completed process or the exception it raises. *)
Record World : Type := mkWorld {
  cwd : Path;
  path_exists : Path -> bool;
  subprocess_run : list string -> option Path -> Z -> exn + CompletedProcess
}.

Definition call_subprocess (w : World) (command : list string)
  (dir : option Path) (timeout : Z) : py CompletedProcess :=
  match subprocess_run w command dir timeout with
  | inl e => raise e
  | inr result => ret result
  end.

Definition run_command (w : World) (command : list string)
  (dir : option Path) (timeout : Z) : py (Z * string * string) :=
  try_except
    (result <- call_subprocess w command dir timeout ;;
     ret (returncode result, stdout result, stderr result))
    (fun e =>
       match e with
       | TimeoutExpired =>
           ret ((-1)%Z, "", "Command timed out after " ++ str_int timeout ++ " seconds")
       | OtherException text => ret ((-1)%Z, "", text)
       end).

(** The default of [run_command]'s [timeout] parameter. *)
Definition default_timeout : Z := 300.

(** [^test\s+(.+?)\s+\.\.\.(\w+)(?:\s+(.+))?$] *)
Definition test_pattern : regex :=
  seqs [ Bol; lit "test"; plus space; Group 1 (plus_lazy dot); plus space;
         lit "..."; Group 2 (plus word);
         opt (Seq (plus space) (Group 3 (plus dot))); Eol ].

(** [match.group(i) or ""]: groups 1 and 2 take part in every match. *)
Definition group_or_empty (i : nat) (m : caps) : string :=
  match group i m with
  | Some s => s
  | None => ""
  end.

Definition status_of (status_str : string) : TestStatus :=
  if String.eqb status_str "ok" then PASSED
  else if String.eqb status_str "FAILED" then FAILED
  else if existsb (String.eqb status_str) ["ignored"; "should panic"] then IGNORED
  else FAILED.

(** The body of the loop over the lines of the output. *)
Definition parse_line (results : list TestResult) (line : string)
  : list TestResult :=
  match re_match test_pattern (strip line) with
  | Some m =>
      let name := group_or_empty 1 m in
      let status_str := group_or_empty 2 m in
      let rest := group_or_empty 3 m in
      let st := status_of status_str in
      results +++
      [ mkTestResult name st 0
          (if TestStatus_eqb st FAILED then rest else "") "" "" false ]
  | None => results
  end.

Definition parse_test_output (output : string) : list TestResult :=
  fold_left parse_line (split newline output) [].

(** The dictionary [analyze_failure] returns. *)
Record Diagnosis : Type := mkDiagnosis {
  d_error_type : string;
  d_suggestion : string;
  d_fixable : bool
}.

(** The dictionary [patterns], in the order its keys are written. *)
Definition patterns : list (string * Diagnosis) :=
  [ ("assertion failed",
     mkDiagnosis "断言失败" "检查断言条件，确保测试预期与实际行为一致" false);
    ("panicked at",
     mkDiagnosis "Panic" "代码发生 panic，检查是否访问了无效数据或触发了 panic!" false);
    ("attempt to add with overflow",
     mkDiagnosis "算术溢出" "使用 checked_add、wrapping_add 或 saturating_add" true);
    ("borrow checker",
     mkDiagnosis "借用检查错误" "检查所有权和生命周期，可能需要克隆或调整引用" false);
    ("type mismatch",
     mkDiagnosis "类型不匹配" "检查类型注解，可能需要进行类型转换" true);
    ("no such file or directory",
     mkDiagnosis "文件不存在" "确保测试所需的文件存在，或使用临时目录" true);
    ("connection refused",
     mkDiagnosis "连接失败" "确保测试依赖的服务已启动，或使用 mock" false);
    ("timeout",
     mkDiagnosis "测试超时" "优化测试性能或增加超时时间" false) ].

(** The values the three locals start with. *)
Definition default_diagnosis : Diagnosis :=
  mkDiagnosis "未知错误" "请检查测试代码和实现代码" false.

(** The loop over [patterns.items()], left at the first pattern found. *)
Fixpoint first_signature (err : string) (ps : list (string * Diagnosis))
  (current : Diagnosis) : Diagnosis :=
  match ps with
  | [] => current
  | (pattern, info) :: rest =>
      if contains (lower pattern) (lower err) then info
      else first_signature err rest current
  end.

Definition analyze_failure (err : string) (name : string) : Diagnosis :=
  first_signature err patterns default_diagnosis.

Definition single_test_command (name : string) (package features : option string)
  : list string :=
  ["cargo"; "test"; "--no-fail-fast"]
  +++ (match package with
       | Some p => if truthy package then ["--package"; p] else []
       | None => []
       end)
  +++ (match features with
       | Some f => if truthy features then ["--features"; f] else []
       | None => []
       end)
  +++ [name].

Definition run_single_test (w : World) (name : string)
  (package features : option string) (workspace_root : option Path)
  : py TestResult :=
  let workspace_root :=
    match workspace_root with
    | None => cwd w
    | Some p => p
    end in
  let command := single_test_command name package features in
  print ("🔍 运行测试: " ++ name) ;;
  print ("📝 命令: " ++ join " " command ++ nl) ;;
  r <- run_command w command (Some workspace_root) default_timeout ;;
  let '(exit_code, _, err) := r in
  if Z.eqb exit_code 0 then
    ret (mkTestResult name PASSED 0 "" "" "" false)
  else
    let analysis := analyze_failure err name in
    ret (mkTestResult name FAILED 0 (take 500 err)
           (d_error_type analysis) (d_suggestion analysis) (d_fixable analysis)).

Definition with_status (s : TestStatus) (results : list TestResult)
  : list TestResult :=
  filter (fun r => TestStatus_eqb (status r) s) results.

Definition nonempty (s : string) : bool :=
  match s with
  | EmptyString => false
  | String _ _ => true
  end.

(** The lines one failed result adds to the report. *)
Definition failed_lines (lines : list string) (result : TestResult)
  : list string :=
  let lines :=
    lines +++ [ nl ++ "### " ++ test_name result;
                "- **状态**: " ++ TestStatus_value (status result);
                "- **错误类型**: " ++ error_type result;
                "- **建议**: " ++ suggestion result ] in
  let lines :=
    if fixable result then lines +++ ["- **可自动修复**: ✅ 是"] else lines in
  if nonempty (error_message result) then
    lines +++ [ nl ++ "**错误信息**:"; "```"; take 300 (error_message result) ]
    +++ (if (300 <? length (error_message result))%nat then ["..."] else [])
    +++ ["```"]
  else lines.

Definition format_test_report (results : list TestResult) : string :=
  let lines := ["# Rust 测试报告" ++ nl] in
  let passed := with_status PASSED results in
  let failed := with_status FAILED results in
  let ignored := with_status IGNORED results in
  let lines :=
    lines +++ [ "## 📊 统计" ++ nl;
                "- 总测试数: " ++ str_nat (List.length results);
                "- ✅ 通过: " ++ str_nat (List.length passed);
                "- ❌ 失败: " ++ str_nat (List.length failed);
                "- ⚠️  忽略: " ++ str_nat (List.length ignored) ++ nl ] in
  let lines :=
    match failed with
    | [] => lines
    | _ :: _ => fold_left failed_lines failed (lines +++ ["## ❌ 失败的测试" ++ nl])
    end in
  let lines :=
    match passed with
    | [] => lines
    | _ :: _ =>
        let lines := lines +++ [nl ++ "## ✅ 通过的测试" ++ nl] in
        let lines :=
          fold_left (fun ls result => ls +++ ["- " ++ test_name result])
            (firstn 10 passed) lines in
        if (10 <? List.length passed)%nat then
          lines +++ ["- ... 还有 " ++ str_nat (List.length passed - 10) ++ " 个测试"]
        else lines
    end in
  join nl lines.

(** The parsed command line. *)
Record Args : Type := mkArgs {
  arg_test_name : option string;
  arg_package : option string;
  arg_features : option string;
  arg_workspace : Path
}.

(** The loop that walks up from [args.workspace] until a directory holds
    [Cargo.toml]; [None] when the walk reaches a path that is its own
    parent. *)
Fixpoint find_workspace_root (exists_ : Path -> bool) (anch : string)
  (ns : list string) : option Path :=
  let workspace_root := mkPath anch ns in
  if exists_ (child workspace_root "Cargo.toml") then Some workspace_root
  else match ns with
       | [] => None
       | _ :: parent => find_workspace_root exists_ anch parent
       end.

Definition all_tests_command (package features : option string) : list string :=
  ["cargo"; "test"; "--no-fail-fast"; "--"; "--format-terse"]
  +++ (match package with
       | Some p => if truthy package then ["--package"; p] else []
       | None => []
       end)
  +++ (match features with
       | Some f => if truthy features then ["--features"; f] else []
       | None => []
       end).

(** The positional argument when [if args.test_name:] holds: given and
    not empty. *)
Definition test_filter (args : Args) : option string :=
  match arg_test_name args with
  | Some (String c name) => Some (String c name)
  | _ => None
  end.

Definition main (w : World) (args : Args) : py unit :=
  match find_workspace_root (path_exists w)
          (anchor (arg_workspace args)) (names (arg_workspace args)) with
  | None => print "❌ 错误: 未找到 Cargo.toml" ;; sys_exit 1
  | Some workspace_root =>
      print ("📂 工作空间: " ++ path_str workspace_root ++ nl) ;;
      match test_filter args with
      | Some name =>
          result <- run_single_test w name (arg_package args)
                      (arg_features args) (Some workspace_root) ;;
          let report := format_test_report [result] in
          print report ;;
          if TestStatus_eqb (status result) FAILED then sys_exit 1 else ret tt
      | None =>
          print ("🚀 运行所有测试..." ++ nl) ;;
          let command := all_tests_command (arg_package args) (arg_features args) in
          r <- run_command w command (Some workspace_root) default_timeout ;;
          let '(exit_code, out, _) := r in
          let results := parse_test_output out in
          let report := format_test_report results in
          print report ;;
          if negb (Z.eqb exit_code 0) then sys_exit 1 else ret tt
      end
  end.

(** The command [main] hands to the harness: restricted to the test name
    when one is given, unrestricted otherwise. *)
Definition harness_command (args : Args) : list string :=
  match test_filter args with
  | Some name => single_test_command name (arg_package args) (arg_features args)
  | None => all_tests_command (arg_package args) (arg_features args)
  end.

(** The workspace root [main] settles on, when the walk finds one. *)
Definition workspace_of (w : World) (args : Args) : option Path :=
  find_workspace_root (path_exists w)
    (anchor (arg_workspace args)) (names (arg_workspace args)).

(** What [run_command] returns for each behaviour of the external
    process. *)
Definition command_result (w : World) (command : list string)
  (dir : option Path) (timeout : Z) : Z * string * string :=
  match subprocess_run w command dir timeout with
  | inr result => (returncode result, stdout result, stderr result)
  | inl TimeoutExpired =>
      ((-1)%Z, "", "Command timed out after " ++ str_int timeout ++ " seconds")
  | inl (OtherException text) => ((-1)%Z, "", text)
  end.

(** The two lines [run_single_test] prints before it calls the harness. *)
Definition banner (name : string) (package features : option string) : log :=
  [ (Stdout, "🔍 运行测试: " ++ name);
    (Stdout, "📝 命令: " ++ join " " (single_test_command name package features) ++ nl) ].

(** The result [run_single_test] builds from what [run_command] returned. *)
Definition result_of (name : string) (r : Z * string * string) : TestResult :=
  let '(exit_code, _, err) := r in
  if Z.eqb exit_code 0 then mkTestResult name PASSED 0 "" "" "" false
  else
    mkTestResult name FAILED 0 (take 500 err)
      (d_error_type (analyze_failure err name))
      (d_suggestion (analyze_failure err name))
      (d_fixable (analyze_failure err name)).

(** What [main] has printed when it reaches the report, and the results it
    reports, once the workspace [root] is found. *)
Definition preamble (args : Args) (root : Path) : log :=
  (Stdout, "📂 工作空间: " ++ path_str root ++ nl)
  :: match test_filter args with
     | Some name => banner name (arg_package args) (arg_features args)
     | None => [(Stdout, "🚀 运行所有测试..." ++ nl)]
     end.

Definition reported (w : World) (args : Args) (root : Path) : list TestResult :=
  let r := command_result w (harness_command args) (Some root) default_timeout in
  match test_filter args with
  | Some name => [result_of name r]
  | None => parse_test_output (snd (fst r))
  end.

(** *** Scenarios *)

Definition project : Path := mkPath "/" ["sdk"].

(** Every path exists and the harness never finishes within the bound. *)
Definition stalled_world : World :=
  mkWorld project (fun _ => true) (fun _ _ _ => inl TimeoutExpired).

(** The harness exits with status 0 and prints one result line. *)
Definition green_world (out : string) : World :=
  mkWorld project (fun _ => true) (fun _ _ _ => inr (mkCompleted 0 out "")).

(** The harness cannot be started. *)
Definition broken_world : World :=
  mkWorld project (fun _ => true)
    (fun _ _ _ => inl (OtherException "No such file or directory: 'cargo'")).

Definition one_test : Args := mkArgs (Some "test_login") None None project.

Definition all_tests : Args := mkArgs None None None project.

End RunRustTests.

(** ** [scripts/check_error_tolerance.py] *)

Module CheckErrorTolerance.

Import Text Re Py.
Local Open Scope py_scope.

Inductive Severity : Type := HIGH | MEDIUM | LOW.

Definition Severity_value (s : Severity) : string :=
  match s with
  | HIGH => "🔴 高严重度"
  | MEDIUM => "🟡 中严重度"
  | LOW => "🟢 低严重度"
  end.

Definition Severity_eqb (a b : Severity) : bool :=
  match a, b with
  | HIGH, HIGH | MEDIUM, MEDIUM | LOW, LOW => true
  | _, _ => false
  end.

(** The dataclass [Issue]. *)
Record Issue : Type := mkIssue {
  file_path : string;
  line_number : nat;
  line_content : string;
  severity : Severity;
  category : string;
  risk : string;
  suggestion : string;
  example : string
}.

(** One entry of [CHECK_PATTERNS]: its key and the fields of its value. *)
Record Rule : Type := mkRule {
  rule_name : string;
  rule_pattern : regex;
  rule_severity : Severity;
  rule_category : string;
  rule_risk : string;
  rule_suggestion : string;
  rule_example : string
}.

(** The classes [[a-z_]] and [[0-9]]. *)
Definition lower_or_underscore : regex :=
  Chr (fun c => is_lower c || Ascii.eqb c "_").

Definition digit : regex := Chr is_digit.

(** Rule [unwrap()], pattern [\bunwrap\(\)(?!\s*//.*测试|test)]. *)
Definition rule_unwrap : Rule :=
  mkRule "unwrap()"
    (seqs [ WordB; lit "unwrap()";
           NotAhead (Alt (seqs [star space; lit "//"; star dot; lit "测试"])
                         (lit "test")) ])
    HIGH
    "unwrap() 的过度使用"
    "生产环境中直接 panic，无法优雅降级"
    "使用 ? 操作符传播错误，或使用 map_err 添加错误上下文"
    ("// ❌ 危险
let user_id = get_user_id().unwrap();

// ✅ 更好
let user_id = get_user_id()
    .map_err(|e| Error::UserIdNotFound(e))?;").

(** Rule [unwrap_or_default], pattern [\.unwrap_or_default\(\)]. *)
Definition rule_unwrap_or_default : Rule :=
  mkRule "unwrap_or_default"
    (lit ".unwrap_or_default()")
    HIGH
    "不当的 unwrap_or_default()"
    "可能掩盖真实错误，导致业务逻辑错误"
    "金额、余额、状态等字段必须显式处理错误"
    ("// ❌ 余额查询失败返回 0
let balance = query_balance(user_id).unwrap_or_default();

// ✅ 明确处理错误
let balance = query_balance(user_id)
    .map_err(|e| {
        log::error!(" ++ dq ++ "Failed to query balance for {:?}: {:?}" ++ dq ++ ", user_id, e);
        Error::BalanceQueryFailed
    })?;").

(** Rule [unwrap_or], pattern [\.unwrap_or\([^)]+\)]. *)
Definition rule_unwrap_or : Rule :=
  mkRule "unwrap_or"
    (seqs [ lit ".unwrap_or("; plus (none_of ")"); lit ")" ])
    HIGH
    "不当的 unwrap_or()"
    "网络错误、配置错误被掩盖为默认值"
    "使用 Result 传播错误，或在启动时明确失败"
    ("// ❌ 网络错误被掩盖
let price = fetch_price().unwrap_or(old_price);

// ✅ 启动时明确失败
let price = fetch_price().await
    .map_err(|e| Error::PriceFetchFailed { context: e })?;").

(** Rule [let _ =], pattern [let\s+_\s*=\s*[a-z_]+\(.*\)[;$]]. *)
Definition rule_let_underscore : Rule :=
  mkRule "let _ ="
    (seqs [ lit "let"; plus space; lit "_"; star space; lit "="; star space;
           plus lower_or_underscore; lit "("; star dot; lit ")"; one_of ";$" ])
    HIGH
    "let _ = 忽略 must_use 值"
    "忽略重要返回值，导致资源泄漏或逻辑错误"
    "显式处理返回值，或使用 semicolon 表示有意识丢弃"
    ("// ❌ 忽略事务提交结果
let _ = tx.commit();

// ✅ 显式处理
tx.commit()?;").

(** Rule [assert!], pattern [assert!\([^,)]+(,[^)]+)?\)]. *)
Definition rule_assert : Rule :=
  mkRule "assert!"
    (seqs [ lit "assert!("; plus (none_of ",)");
           opt (Group 1 (Seq (lit ",") (plus (none_of ")")))); lit ")" ])
    HIGH
    "assert! 在生产代码中"
    "release 模式下被优化掉，debug 模式才 panic"
    "使用 if 语句检查并返回错误，或使用 debug_assert!"
    ("// ❌ release 模式下不检查
assert!(amount > 0, " ++ dq ++ "Amount must be positive" ++ dq ++ ");

// ✅ 运行时始终检查
if amount <= 0 {
    return Err(Error::InvalidAmount { amount });
}").

(** Rule [expect_short], pattern [\.expect\(Q[^Q]{0,20}Q\), Q standing for the double quote]. *)
Definition rule_expect_short : Rule :=
  mkRule "expect_short"
    (seqs [ lit ".expect("; lit dq; upto 20 (none_of dq); lit dq; lit ")" ])
    MEDIUM
    "expect() 缺少有用的错误信息"
    "panic 时缺少调试上下文，难以定位问题"
    "包含足够的上下文（地址、ID、参数等）"
    ("// ❌ 信息不足
let config = load_config().expect(" ++ dq ++ "failed" ++ dq ++ ");

// ✅ 包含上下文
let config = load_config().expect(
    " ++ dq ++ "Failed to load config from CONFIG_PATH env var" ++ dq ++ "
);").

(** Rule [panic_short], pattern [panic!\(Q[^Q]{0,30}Q\), Q standing for the double quote]. *)
Definition rule_panic_short : Rule :=
  mkRule "panic_short"
    (seqs [ lit "panic!("; lit dq; upto 30 (none_of dq); lit dq; lit ")" ])
    MEDIUM
    "panic! 使用不当"
    "panic 信息不完整，调试困难"
    "包含请求参数、时间戳、地址等调试信息"
    ("// ❌ 缺少上下文
panic!(" ++ dq ++ "Invalid state" ++ dq ++ ");

// ✅ 包含调试信息
panic!(
    " ++ dq ++ "Invalid state: expected Active, got {:?} for order {}" ++ dq ++ ",
    state, order_id
);").

(** Rule [ok()], pattern [\.ok\(\)\s*;]. *)
Definition rule_ok : Rule :=
  mkRule "ok()"
    (seqs [ lit ".ok()"; star space; lit ";" ])
    MEDIUM
    "ok() 静默忽略错误"
    "错误被悄无声息地忽略，可能导致后续问题"
    "至少记录日志，或使用 inspect_err"
    ("// ❌ 错误被吞掉
let result = some_operation().ok();

// ✅ 至少记录日志
if let Err(e) = some_operation() {
    log::warn!(" ++ dq ++ "Operation failed: {:?}" ++ dq ++ ", e);
}").

(** Rule [parse().unwrap], pattern [\.parse\(\)\.unwrap\(\)]. *)
Definition rule_parse_unwrap : Rule :=
  mkRule "parse().unwrap"
    (lit ".parse().unwrap()")
    MEDIUM
    "parse().unwrap() 模式"
    "字符串解析失败导致 panic"
    "优雅处理解析错误，提供清晰的错误消息"
    ("// ❌ 解析失败 panic
let port: u16 = env::var(" ++ dq ++ "PORT" ++ dq ++ ").unwrap().parse().unwrap();

// ✅ 优雅处理错误
let port: u16 = env::var(" ++ dq ++ "PORT" ++ dq ++ ")
    .map_err(|e| Error::ConfigMissing(" ++ dq ++ "PORT" ++ dq ++ ".into()))?
    .parse()
    .map_err(|e| Error::ConfigInvalid {
        key: " ++ dq ++ "PORT" ++ dq ++ ",
        value: env::var(" ++ dq ++ "PORT" ++ dq ++ ").unwrap_or_default(),
        source: e,
    })?;").

(** Rule [direct_index], pattern [[a-z_]+\[[0-9]+\](?!\s*=)]. *)
Definition rule_direct_index : Rule :=
  mkRule "direct_index"
    (seqs [ plus lower_or_underscore; lit "["; plus digit; lit "]";
           NotAhead (Seq (star space) (lit "=")) ])
    MEDIUM
    "未经检查的数组/Vec 访问"
    "越界访问导致 panic"
    "使用 .get()、.first()、.last() 等安全方法"
    ("// ❌ 可能 panic
let item = items[0];

// ✅ 安全访问
let item = items.get(0).ok_or(Error::EmptyList)?;

// ✅ 或使用迭代器
let item = items.first().ok_or(Error::EmptyList)?;").

(** Rule [todo!], pattern [(todo|unimplemented)!\(]. *)
Definition rule_todo : Rule :=
  mkRule "todo!"
    (seqs [ Group 1 (Alt (lit "todo") (lit "unimplemented")); lit "!(" ])
    LOW
    "todo!() 和 unimplemented!() 在生产代码"
    "功能未完成，执行到时会 panic"
    "返回明确的错误，或添加 #[cfg(test)] 条件"
    ("// ❌ 生产代码中未完成
fn complex_feature(input: Input) -> Output {
    todo!()
}

// ✅ 返回明确的错误
fn complex_feature(input: Input) -> Result<Output, Error> {
    Err(Error::NotImplemented {
        feature: " ++ dq ++ "complex_feature" ++ dq ++ ".into()
    })
}").

(** The dictionary [CHECK_PATTERNS], in the order its keys are written. *)
Definition CHECK_PATTERNS : list Rule :=
  [ rule_unwrap;
    rule_unwrap_or_default;
    rule_unwrap_or;
    rule_let_underscore;
    rule_assert;
    rule_expect_short;
    rule_panic_short;
    rule_ok;
    rule_parse_unwrap;
    rule_direct_index;
    rule_todo ].

(** The world outside the script: the current directory, which paths exist,
    what [root.rglob] finds for the suffix [.rs], and what opening a file and
    reading its lines gives, either the text of the exception or the
    lines. *)
Record World : Type := mkWorld {
  cwd : Path;
  path_exists : Path -> bool;
  rglob_rs : Path -> list Path;
  readlines : Path -> string + list string
}.

(** [p.parts] *)
Definition parts (p : Path) : list string :=
  match anchor p with
  | EmptyString => rev (names p)
  | a => a :: rev (names p)
  end.

Definition should_skip_file (p : Path) : bool :=
  if existsb (String.eqb "target") (parts p) then true else false.

(** [enumerate(xs, start)] *)
Fixpoint enumerate {A : Type} (xs : list A) (start : nat) : list (nat * A) :=
  match xs with
  | [] => []
  | x :: rest => (start, x) :: enumerate rest (S start)
  end.

Definition issue_of (path : string) (line_num : nat) (line_stripped : string)
  (config : Rule) : Issue :=
  mkIssue path line_num line_stripped (rule_severity config)
    (rule_category config) (rule_risk config) (rule_suggestion config)
    (rule_example config).

(** The body of the loop over [CHECK_PATTERNS.items()]. *)
Definition check_pattern (path : string) (line_num : nat)
  (line line_stripped : string) (issues : list Issue) (config : Rule)
  : list Issue :=
  if re_search (rule_pattern config) line
  then issues +++ [issue_of path line_num line_stripped config]
  else issues.

(** The body of the loop over the numbered lines. *)
Definition check_line (path : string) (issues : list Issue)
  (numbered : nat * string) : list Issue :=
  let '(line_num, line) := numbered in
  let line_stripped := strip line in
  if startswith "//" line_stripped then issues
  else if contains "#[test]" line || contains "#test" line then issues
  else fold_left (check_pattern path line_num line line_stripped)
         CHECK_PATTERNS issues.

(** The scan of the lines read from a file. *)
Definition check_lines (path : string) (lines : list string) : list Issue :=
  fold_left (check_line path) (enumerate lines 1) [].

Definition check_rust_file (w : World) (p : Path) : py (list Issue) :=
  match readlines w p with
  | inl e =>
      eprint ("⚠️  无法读取文件 " ++ path_str p ++ ": " ++ e) ;;
      ret []
  | inr lines => ret (check_lines (path_str p) lines)
  end.

Definition find_rust_files (w : World) (root_path : Path) : list Path :=
  fold_left
    (fun rust_files p =>
       if negb (should_skip_file p) then rust_files +++ [p] else rust_files)
    (rglob_rs w root_path) [].

(** The dictionary [issues_by_severity], one list per member of
    [Severity]. *)
Record BySeverity : Type := mkBySeverity {
  high : list Issue;
  medium : list Issue;
  low : list Issue
}.

Definition of_severity (d : BySeverity) (s : Severity) : list Issue :=
  match s with
  | HIGH => high d
  | MEDIUM => medium d
  | LOW => low d
  end.

(** [issues_by_severity[issue.severity].append(issue)] *)
Definition add_by_severity (d : BySeverity) (issue : Issue) : BySeverity :=
  match severity issue with
  | HIGH => mkBySeverity (high d +++ [issue]) (medium d) (low d)
  | MEDIUM => mkBySeverity (high d) (medium d +++ [issue]) (low d)
  | LOW => mkBySeverity (high d) (medium d) (low d +++ [issue])
  end.

(** [issues_by_file], a dictionary in insertion order: the entry of the
    issue's file gets the issue appended, a new entry goes last. *)
Fixpoint add_by_file (d : list (string * list Issue)) (issue : Issue)
  : list (string * list Issue) :=
  match d with
  | [] => [(file_path issue, [issue])]
  | (k, v) :: rest =>
      if String.eqb k (file_path issue) then (k, v +++ [issue]) :: rest
      else (k, v) :: add_by_file rest issue
  end.

(** [sorted(d.items())]: the keys of a dictionary differ, so two items
    compare as their keys do; a stable insertion sort on the keys. *)
Fixpoint insert_item (x : string * list Issue)
  (sorted : list (string * list Issue)) : list (string * list Issue) :=
  match sorted with
  | [] => [x]
  | y :: rest =>
      if String.ltb (fst x) (fst y) then x :: y :: rest
      else y :: insert_item x rest
  end.

Definition sorted_items (d : list (string * list Issue))
  : list (string * list Issue) :=
  fold_left (fun acc x => insert_item x acc) d [].

Definition nonempty (s : string) : bool :=
  match s with
  | EmptyString => false
  | String _ _ => true
  end.

(** The lines one issue adds to the report. *)
Definition issue_lines (lines : list string) (issue : Issue) : list string :=
  let lines :=
    lines +++ [ "- **行 " ++ str_nat (line_number issue) ++ "**: `"
                  ++ line_content issue ++ "`";
                "  - **类别**: " ++ category issue;
                "  - **风险**: " ++ risk issue;
                "  - **建议**: " ++ suggestion issue ] in
  let lines :=
    if nonempty (example issue) then
      fold_left (fun ls example_line => ls +++ ["    " ++ example_line])
        (split newline (example issue))
        (lines +++ ["  - **示例**:"; "    ```rust"])
      +++ ["    ```"]
    else lines in
  lines +++ [""].

Definition file_lines (lines : list string) (item : string * list Issue)
  : list string :=
  let '(path, file_issues) := item in
  fold_left issue_lines file_issues
    (lines +++ [nl ++ "### 文件: `" ++ path ++ "`" ++ nl]).

Definition severity_lines (d : BySeverity) (lines : list string)
  (sev : Severity) : list string :=
  match of_severity d sev with
  | [] => lines
  | severity_issues =>
      let lines := lines +++ [nl ++ "## " ++ Severity_value sev ++ nl] in
      let issues_by_file := fold_left add_by_file severity_issues [] in
      fold_left file_lines (sorted_items issues_by_file) lines
  end.

Definition format_report (issues : list Issue) : string :=
  match issues with
  | [] => "✅ 未发现错误容忍问题！"
  | _ :: _ =>
      let issues_by_severity :=
        fold_left add_by_severity issues (mkBySeverity [] [] []) in
      let lines :=
        [ "# Rust 错误容忍检查报告" ++ nl;
          "共发现 " ++ str_nat (List.length issues) ++ " 个问题" ++ nl ] in
      let lines :=
        fold_left (severity_lines issues_by_severity) [HIGH; MEDIUM; LOW] lines in
      let lines :=
        lines +++ [ nl ++ "---" ++ nl;
                    "## 📊 汇总统计" ++ nl ++ nl;
                    "| 严重度 | 问题数量 | 优先级 |";
                    "|--------|----------|--------|" ] in
      let high_count := List.length (high issues_by_severity) in
      let medium_count := List.length (medium issues_by_severity) in
      let low_count := List.length (low issues_by_severity) in
      let lines :=
        lines +++ [ "| 🔴 高 | " ++ str_nat high_count ++ " | P0 - 立即修复 |";
                    "| 🟡 中 | " ++ str_nat medium_count ++ " | P1 - 尽快修复 |";
                    "| 🟢 低 | " ++ str_nat low_count ++ " | P2 - 改进代码质量 |" ] in
      join nl lines
  end.

(** The loop of [main] over the files found. *)
Fixpoint check_files (w : World) (rust_files : list Path)
  (all_issues : list Issue) : py (list Issue) :=
  match rust_files with
  | [] => ret all_issues
  | rust_file :: rest =>
      issues <- check_rust_file w rust_file ;;
      check_files w rest (all_issues +++ issues)
  end.

(** The path to scan: the argument, or the current directory. *)
Definition check_path_of (w : World) (arg : option Path) : Path :=
  match arg with
  | Some p => p
  | None => cwd w
  end.

(** [main]; [arg] is [sys.argv[1]] as a path, when the command line has
    one. *)
Definition main (w : World) (arg : option Path) : py unit :=
  let check_path := check_path_of w arg in
  if negb (path_exists w check_path) then
    eprint ("❌ 错误: 路径不存在: " ++ path_str check_path) ;;
    sys_exit 1
  else
    print ("🔍 检查路径: " ++ path_str check_path) ;;
    print ("📁 正在查找 Rust 文件..." ++ nl) ;;
    let rust_files := find_rust_files w check_path in
    match rust_files with
    | [] =>
        print ("⚠️  未找到任何 .rs 文件在: " ++ path_str check_path) ;;
        sys_exit 0
    | _ :: _ =>
        print ("✅ 找到 " ++ str_nat (List.length rust_files) ++ " 个 Rust 文件" ++ nl) ;;
        print ("🔬 正在分析代码..." ++ nl) ;;
        all_issues <- check_files w rust_files [] ;;
        let report := format_report all_issues in
        print report ;;
        let high_issues :=
          filter (fun i => Severity_eqb (severity i) HIGH) all_issues in
        match high_issues, all_issues with
        | _ :: _, _ =>
            print (nl ++ "❌ 发现 " ++ str_nat (List.length high_issues)
                   ++ " 个高严重度问题，请立即修复！") ;;
            sys_exit 1
        | [], _ :: _ =>
            print (nl ++ "⚠️  发现 " ++ str_nat (List.length all_issues)
                   ++ " 个问题，建议尽快修复。") ;;
            sys_exit 0
        | [], [] =>
            print (nl ++ "✅ 代码质量检查通过！") ;;
            sys_exit 0
        end
    end.

(** A line the scan looks at: not a comment line, and without a test
    marker. *)
Definition eligible (line : string) : bool :=
  negb (startswith "//" (strip line))
  && negb (contains "#[test]" line || contains "#test" line).

(** The rules whose pattern is found in the line, in catalog order. *)
Definition matching_rules (line : string) : list Rule :=
  filter (fun config => re_search (rule_pattern config) line) CHECK_PATTERNS.

(** The issues reported for line number [n]. *)
Definition issues_at (n : nat) (issues : list Issue) : list Issue :=
  filter (fun i => Nat.eqb (line_number i) n) issues.

(** The issues the scan adds for one numbered line. *)
Definition line_issues (path : string) (numbered : nat * string) : list Issue :=
  if eligible (snd numbered) then
    map (issue_of path (fst numbered) (strip (snd numbered)))
      (matching_rules (snd numbered))
  else [].

(** The list [check_rust_file] returns for a file. *)
Definition file_issues (w : World) (p : Path) : list Issue :=
  match readlines w p with
  | inl _ => []
  | inr lines => check_lines (path_str p) lines
  end.

(** The issues of all the files [main] scans under [root]. *)
Definition all_issues_under (w : World) (root : Path) : list Issue :=
  flat_map (file_issues w) (find_rust_files w root).

(** *** Scenarios *)

Definition crate : Path := mkPath "" ["crate"].

Definition lib_rs : Path := mkPath "" ["lib.rs"; "src"; "crate"].

Definition built_rs : Path := mkPath "" ["out.rs"; "target"; "crate"].

(** A crate with one source file of the given lines and one file under
    [target]. *)
Definition crate_world (lines : list string) : World :=
  mkWorld crate (fun _ => true) (fun _ => [built_rs; lib_rs])
    (fun p => if String.eqb (path_str p) "crate/src/lib.rs" then inr lines
              else inl "Permission denied").

Definition risky_lines : list string :=
  [ "fn port() -> u16 {" ++ nl;
    "    // let user_id = get_user_id().unwrap();" ++ nl;
    "    std::env::var(KEY).unwrap().parse().unwrap()" ++ nl;
    "}" ++ nl ].

Definition sloppy_lines : list string :=
  [ "fn first(items: &[u8]) -> u8 {" ++ nl;
    "    items[0]" ++ nl;
    "}" ++ nl ].

End CheckErrorTolerance.

From Stdlib Require Import Permutation Sorted.
From Stdlib Require OrderedTypeEx.

(** ** Vocabulary for the properties of the auditor *)

Module Audit.

Import Text Re Py CheckErrorTolerance.

(** Opening the file and reading its lines succeeds. *)
Definition readable (w : World) (p : Path) : bool :=
  match readlines w p with
  | inr _ => true
  | inl _ => false
  end.

(** The warnings [check_rust_file] prints for the files it cannot read. *)
Definition warnings (w : World) (files : list Path) : log :=
  flat_map
    (fun p =>
       match readlines w p with
       | inl e => [(Stderr, "⚠️  无法读取文件 " ++ path_str p ++ ": " ++ e)]
       | inr _ => []
       end)
    files.

(** The dictionary [issues_by_file] after the loop over the issues. *)
Definition by_file (issues : list Issue) : list (string * list Issue) :=
  fold_left add_by_file issues [].

(** The dictionary [issues_by_severity] after the loop over the issues. *)
Definition by_severity (issues : list Issue) : BySeverity :=
  fold_left add_by_severity issues (mkBySeverity [] [] []).

(** The issues of one file and of one severity, in the order given. *)
Definition in_file (path : string) (issues : list Issue) : list Issue :=
  filter (fun i => String.eqb path (file_path i)) issues.

Definition with_severity (s : Severity) (issues : list Issue) : list Issue :=
  filter (fun i => Severity_eqb (severity i) s) issues.

(** The last line [main] prints after the report. *)
Definition verdict (issues : list Issue) : string :=
  match with_severity HIGH issues, issues with
  | _ :: _, _ =>
      nl ++ "❌ 发现 " ++ str_nat (List.length (with_severity HIGH issues))
      ++ " 个高严重度问题，请立即修复！"
  | [], _ :: _ =>
      nl ++ "⚠️  发现 " ++ str_nat (List.length issues) ++ " 个问题，建议尽快修复。"
  | [], [] => nl ++ "✅ 代码质量检查通过！"
  end.

(** The order of [sorted] on the items of a dictionary: by key. *)
Definition key_lt (x y : string * list Issue) : Prop :=
  String.ltb (fst x) (fst y) = true.

(** The invariant of the loop that fills [issues_by_file]. *)
Definition grouped (d : list (string * list Issue)) (seen : list Issue) : Prop :=
  NoDup (map fst d)
  /\ (forall k v, In (k, v) d -> v = in_file k seen /\ v <> [])
  /\ (forall j, In j seen -> In (file_path j) (map fst d)).

End Audit.

(** ** Vocabulary for the properties of the test wrapper *)

Module Wrapper.

Import Text Re Py RunRustTests.

(** The directory [up] levels above the path with the given names. *)
Definition ancestor (anch : string) (ns : list string) (up : nat) : Path :=
  mkPath anch (skipn up ns).

(** The directory holds the workspace marker. *)
Definition has_manifest (w : World) (p : Path) : bool :=
  path_exists w (child p "Cargo.toml").

(** A world in which no path exists. *)
Definition empty_world : World :=
  mkWorld project (fun _ => false) (fun _ _ _ => inl TimeoutExpired).

(** A world whose only manifest is the one of [/sdk]. *)
Definition sdk_world : World :=
  mkWorld project
    (fun p => String.eqb (path_str p) "/sdk/Cargo.toml")
    (fun _ _ _ => inr (mkCompleted 0 "" "")).

Definition nested : Path := mkPath "/" ["tests"; "swap"; "sdk"].

End Wrapper.

(** ** What a successful run of the matcher implies *)

Module ReSpec.

Import Text Re.

(** The loop of [run] for a repetition, with the matcher of the body as a
    parameter. *)
Definition rep_loop (body : cont -> cont) (greedy : bool) (lo : nat)
  (hi : option nat) (k : cont) : nat -> nat -> cont :=
  fix loop (fuel n : nat) (b : list ascii) (a : string) (cs : caps)
    {struct fuel} : option caps :=
    match fuel with
    | O => if (lo <=? n)%nat then k b a cs else None
    | S fuel' =>
        let more (_ : unit) :=
          if below n hi then
            body
              (fun b' a' cs' =>
                 if (length a' <? length a)%nat
                 then loop fuel' (S n) b' a' cs'
                 else None)
              b a cs
          else None in
        let stop (_ : unit) :=
          if (lo <=? n)%nat then k b a cs else None in
        if greedy then
          match more tt with
          | Some res => Some res
          | None => stop tt
          end
        else
          match stop tt with
          | Some res => Some res
          | None => more tt
          end
    end.

(** [matches r b a cs b' a' cs']: from the position with [b] before and [a]
    after it and the groups [cs], the pattern [r] can take the matcher to
    the position [b'], [a'] with the groups [cs'].  A repetition is one
    iteration that consumes something, followed by the repetition with its
    bounds lowered by one. *)
Inductive matches :
  regex -> list ascii -> string -> caps -> list ascii -> string -> caps -> Prop :=
| m_eps b a cs : matches Eps b a cs b a cs
| m_chr p c b a cs :
    p c = true -> matches (Chr p) b (String c a) cs (c :: b) a cs
| m_seq r1 r2 b a cs b1 a1 cs1 b2 a2 cs2 :
    matches r1 b a cs b1 a1 cs1 ->
    matches r2 b1 a1 cs1 b2 a2 cs2 ->
    matches (Seq r1 r2) b a cs b2 a2 cs2
| m_alt_left r1 r2 b a cs b' a' cs' :
    matches r1 b a cs b' a' cs' -> matches (Alt r1 r2) b a cs b' a' cs'
| m_alt_right r1 r2 b a cs b' a' cs' :
    matches r2 b a cs b' a' cs' -> matches (Alt r1 r2) b a cs b' a' cs'
| m_rep_stop greedy hi r b a cs : matches (Rep greedy 0 hi r) b a cs b a cs
| m_rep_more greedy lo hi r b a cs b1 a1 cs1 b2 a2 cs2 :
    below 0 hi = true ->
    matches r b a cs b1 a1 cs1 ->
    (length a1 < length a)%nat ->
    matches (Rep greedy (Nat.pred lo) (option_map Nat.pred hi) r)
      b1 a1 cs1 b2 a2 cs2 ->
    matches (Rep greedy lo hi r) b a cs b2 a2 cs2
| m_group i r b a cs b' a' cs' :
    matches r b a cs b' a' cs' ->
    matches (Group i r) b a cs b' a'
      ((i, take (length a - length a') a) :: cs')
| m_not_ahead r b a cs :
    run r (fun _ _ cs' => Some cs') b a cs = None ->
    matches (NotAhead r) b a cs b a cs
| m_word_boundary b a cs :
    xorb (prev_is_word b) (next_is_word a) = true ->
    matches WordB b a cs b a cs
| m_bol a cs : matches Bol [] a cs [] a cs
| m_eol_end b cs : matches Eol b "" cs b "" cs
| m_eol_newline b cs : matches Eol b nl cs b nl cs.

(** The characters of a text, last first. *)
Fixpoint rev_chars (s : string) : list ascii :=
  match s with
  | EmptyString => []
  | String c s' => rev_chars s' +++ [c]
  end.

(** Every character of the text is in the class. *)
Fixpoint all_in (p : ascii -> bool) (s : string) : bool :=
  match s with
  | EmptyString => true
  | String c s' => p c && all_in p s'
  end.

End ReSpec.

(** ** Vocabulary for the properties of the parser *)

Module Parser.

Import Text.

(** Three dots and a word character start the text. *)
Definition dots_word_here (s : string) : bool :=
  startswith "..." s
  && match s with
     | String _ (String _ (String _ (String c _))) => is_word c
     | _ => false
     end.

(** Somewhere in the text three dots are directly followed by a word
    character. *)
Fixpoint dots_then_word (s : string) : bool :=
  dots_word_here s
  || match s with
     | EmptyString => false
     | String _ s' => dots_then_word s'
     end.

(** No character of the text is a dot. *)
Definition dot_free (s : string) : bool :=
  ReSpec.all_in (fun c => negb (Ascii.eqb c ".")) s.

End Parser.

(** ** Vocabulary for the properties of the rules *)

Module Rules.

Import Text Re CheckErrorTolerance.

(** A text every match of the rule's pattern holds. *)
Definition keyword (config : Rule) : string :=
  if String.eqb (rule_name config) "unwrap()" then "unwrap()"
  else if String.eqb (rule_name config) "unwrap_or_default" then ".unwrap_or_default()"
  else if String.eqb (rule_name config) "unwrap_or" then ".unwrap_or("
  else if String.eqb (rule_name config) "let _ =" then "let"
  else if String.eqb (rule_name config) "assert!" then "assert!("
  else if String.eqb (rule_name config) "expect_short" then ".expect(" ++ dq
  else if String.eqb (rule_name config) "panic_short" then "panic!(" ++ dq
  else if String.eqb (rule_name config) "ok()" then ".ok()"
  else if String.eqb (rule_name config) "parse().unwrap" then ".parse().unwrap()"
  else if String.eqb (rule_name config) "direct_index" then "["
  else "!(".

End Rules.

(** ** Vocabulary for the text of an integer *)

Module Digits.

Import Text.

(** A decimal digit or the minus sign. *)
Definition sign_or_digit (c : ascii) : bool := is_digit c || Ascii.eqb c "-".

End Digits.
(** * Properties *)

(** ** Facts about the text primitives and the effects *)

Module TextFacts.

Import Text.

Lemma startswith_lower (p s : string) :
  startswith p s = true -> startswith (lower p) (lower s) = true.
Proof.
  revert s; induction p as [|a p IH]; intros s H; [reflexivity|].
  destruct s as [|b s]; [discriminate|].
  simpl in *. apply andb_true_iff in H as [Hab Hps].
  apply Ascii.eqb_eq in Hab; subst b.
  rewrite Ascii.eqb_refl. simpl. now apply IH.
Qed.

Lemma contains_cons (p : string) (c : ascii) (s : string) :
  contains p (String c s) = startswith p (String c s) || contains p s.
Proof. reflexivity. Qed.

Lemma contains_lower (p s : string) :
  contains p s = true -> contains (lower p) (lower s) = true.
Proof.
  induction s as [|c s IH]; intros H.
  - simpl in H. rewrite orb_false_r in H.
    apply startswith_lower in H. simpl. now rewrite orb_false_r.
  - rewrite contains_cons in H.
    change (lower (String c s)) with (String (lower_char c) (lower s)).
    rewrite contains_cons.
    apply orb_true_iff in H as [H|H].
    + apply startswith_lower in H. simpl in H. simpl. now rewrite H.
    + rewrite (IH H). apply orb_true_r.
Qed.

End TextFacts.

Module PyFacts.

Import Py.
Local Open Scope py_scope.

Lemma bind_print {B : Type} (text : string) (k : unit -> py B) (l : log) :
  bind (print text) k l = k tt (l +++ [(Stdout, text)]).
Proof. reflexivity. Qed.

Lemma bind_eprint {B : Type} (text : string) (k : unit -> py B) (l : log) :
  bind (eprint text) k l = k tt (l +++ [(Stderr, text)]).
Proof. reflexivity. Qed.

Lemma bind_returned {A B : Type} (m : py A) (f : A -> py B) (l l' : log) (a : A) :
  m l = (Returned a, l') -> bind m f l = f a l'.
Proof. intros H. unfold bind. now rewrite H. Qed.

End PyFacts.

(** ** The test wrapper *)

Module RunRustTestsFacts.

Import Text Re Py RunRustTests TextFacts PyFacts.
Local Open Scope py_scope.

Lemma run_command_returns (w : World) (command : list string)
  (dir : option Path) (timeout : Z) (l : log) :
  run_command w command dir timeout l
  = (Returned (command_result w command dir timeout), l).
Proof.
  unfold run_command, command_result, call_subprocess, try_except, bind.
  destruct (subprocess_run w command dir timeout) as [[|text]|result];
    reflexivity.
Qed.

Lemma run_single_test_returns (w : World) (name : string)
  (package features : option string) (root : Path) (l : log) :
  run_single_test w name package features (Some root) l
  = (Returned
       (result_of name
          (command_result w (single_test_command name package features)
             (Some root) default_timeout)),
     l +++ banner name package features).
Proof.
  unfold run_single_test.
  rewrite !bind_print.
  erewrite bind_returned by apply run_command_returns.
  unfold result_of, banner.
  destruct (command_result _ _ _ _) as [[code out] err].
  rewrite <- app_assoc.
  destruct (Z.eqb code 0); reflexivity.
Qed.

Lemma result_of_status (name : string) (code : Z) (out err : string) :
  status (result_of name (code, out, err)) = FAILED <-> code <> 0%Z.
Proof.
  unfold result_of. destruct (Z.eqb_spec code 0) as [->|Hne]; simpl.
  - split; [discriminate | congruence].
  - tauto.
Qed.

(** Once the workspace is found, [main] prints the preamble and the report of
    the results, and exits with status 1 exactly when the harness's exit
    code is not 0. *)
Lemma main_runs (w : World) (args : Args) (root : Path) (l : log) :
  workspace_of w args = Some root ->
  main w args l
  = ((if Z.eqb (fst (fst (command_result w (harness_command args) (Some root)
                             default_timeout))) 0
      then Returned tt else Exited 1%Z),
     l +++ preamble args root
       +++ [(Stdout, format_test_report (reported w args root))]).
Proof.
  intros Hroot. unfold workspace_of in Hroot.
  unfold main, reported, preamble, harness_command.
  rewrite Hroot, bind_print.
  destruct (test_filter args) as [name|].
  - erewrite bind_returned by apply run_single_test_returns.
    rewrite bind_print.
    destruct (command_result _ _ _ _) as [[code out] err].
    unfold result_of; simpl fst.
    rewrite <- !app_assoc.
    destruct (Z.eqb code 0); reflexivity.
  - rewrite bind_print.
    erewrite bind_returned by apply run_command_returns.
    destruct (command_result _ _ _ _) as [[code out] err].
    rewrite bind_print. simpl fst; simpl snd.
    rewrite <- !app_assoc.
    destruct (Z.eqb code 0); reflexivity.
Qed.


(** C1. The result line with a blank between the dots and the status, the
    form the docstring of [parse_test_output] gives and the harness prints,
    is not recognised: [test suite::case1 ... ok] and the three lines of the
    docstring yield no result at all.  The pattern wants the status glued to
    the dots: without the blank the line parses to a passed result. *)
Theorem spaced_result_line_yields_no_outcome :
  parse_test_output "test suite::case1 ... ok" = []
  /\ parse_test_output
       ("test test_foo ... ok" ++ nl ++ "test test_bar ... FAILED" ++ nl
        ++ "test test_baz ... ignored") = []
  /\ parse_test_output "test suite::case1 ...ok"
     = [mkTestResult "suite::case1" PASSED 0 "" "" "" false].
Proof. repeat split; vm_compute; reflexivity. Qed.

(** C2, as stated, fails: when the harness runs into the timeout the single
    result of the wrapper has status FAILED, not TIMEOUT. *)
Lemma stalled_harness_status_is_failed :
  subprocess_run stalled_world (harness_command one_test) (Some project)
    default_timeout = inl TimeoutExpired
  /\ exists r l',
       run_single_test stalled_world "test_login" None None (Some project) []
       = (Returned r, l')
       /\ status r = FAILED /\ status r <> TIMEOUT.
Proof.
  split; [reflexivity|].
  eexists; eexists. split; [vm_compute; reflexivity|].
  split; [reflexivity | discriminate].
Qed.

(** C2, amended. When the harness invocation of [main] exceeds the timeout,
    no exception propagates: [main] prints the report of its results last
    and exits with status 1.  With a test name the results are the one
    [run_single_test] returns, which has status FAILED and the timeout
    message as error text; without a test name there is no result.  No
    result has status TIMEOUT. *)
Theorem timed_out_harness_is_reported_failed
  (w : World) (args : Args) (root : Path) (l : log) :
  workspace_of w args = Some root ->
  subprocess_run w (harness_command args) (Some root) default_timeout
    = inl TimeoutExpired ->
  exists (results : list TestResult) (printed : log),
    main w args l
    = (Exited 1%Z, l +++ printed +++ [(Stdout, format_test_report results)])
    /\ (forall name,
          test_filter args = Some name ->
          exists r,
            results = [r]
            /\ (forall l0,
                  run_single_test w name (arg_package args) (arg_features args)
                    (Some root) l0
                  = (Returned r,
                     l0 +++ banner name (arg_package args) (arg_features args)))
            /\ test_name r = name
            /\ status r = FAILED
            /\ error_message r = "Command timed out after 300 seconds")
    /\ (test_filter args = None -> results = [])
    /\ Forall (fun r => status r <> TIMEOUT) results.
Proof.
  intros Hroot Hrun.
  assert (Hres : command_result w (harness_command args) (Some root)
                   default_timeout
                 = ((-1)%Z, "", "Command timed out after 300 seconds")).
  { unfold command_result. rewrite Hrun. reflexivity. }
  exists (reported w args root), (preamble args root).
  split; [|split; [|split]].
  - rewrite (main_runs w args root l Hroot), Hres. reflexivity.
  - intros name Hname.
    exists (result_of name ((-1)%Z, "", "Command timed out after 300 seconds")).
    unfold reported. rewrite Hres, Hname.
    split; [reflexivity|]. split; [|repeat split].
    intros l0. rewrite run_single_test_returns.
    unfold harness_command in Hres. rewrite Hname in Hres. now rewrite Hres.
  - intros Hnone. unfold reported. rewrite Hres, Hnone. reflexivity.
  - unfold reported. rewrite Hres.
    destruct (test_filter args); repeat constructor; discriminate.
Qed.

Lemma timed_out_harness_witness :
  exists (results : list TestResult) (printed : log),
    main stalled_world one_test []
    = (Exited 1%Z, printed +++ [(Stdout, format_test_report results)])
    /\ Forall (fun r => status r = FAILED) results.
Proof.
  destruct (timed_out_harness_is_reported_failed stalled_world one_test
              project [] eq_refl eq_refl)
    as (results & printed & Hmain & Hone & _ & _).
  exists results, printed. split; [exact Hmain|].
  destruct (Hone "test_login" eq_refl) as (r & -> & _ & _ & Hst & _).
  constructor; [exact Hst | constructor].
Defined.

(** C3, as stated, fails: the harness exits with code 0, a parsed result is
    FAILED, and the wrapper exits with status 0. *)
Lemma green_harness_failed_outcome_exits_zero :
  workspace_of (green_world "test net::connect ...FAILED") all_tests
    = Some project
  /\ fst (run_command (green_world "test net::connect ...FAILED")
            (harness_command all_tests) (Some project) default_timeout [])
     = Returned (0%Z, "test net::connect ...FAILED", "")
  /\ parse_test_output "test net::connect ...FAILED"
     = [mkTestResult "net::connect" FAILED 0 "" "" "" false]
  /\ exit_status (fst (main (green_world "test net::connect ...FAILED")
                         all_tests [])) = 0%Z.
Proof. repeat split; vm_compute; reflexivity. Qed.

(** C3, amended. Once the workspace is found, the exit status of the
    wrapper is 1 when the exit code [run_command] returned for the harness
    is not 0 and is 0 when it is 0; the parsed results have no part in it.
    With a test name this is the same as the result of [run_single_test]
    being FAILED. *)
Theorem exit_status_follows_harness_code
  (w : World) (args : Args) (root : Path) (l l0 : log)
  (code : Z) (out err : string) :
  workspace_of w args = Some root ->
  run_command w (harness_command args) (Some root) default_timeout l0
    = (Returned (code, out, err), l0) ->
  (exit_status (fst (main w args l)) <> 0%Z <-> code <> 0%Z)
  /\ (exit_status (fst (main w args l)) = 1%Z <-> code <> 0%Z)
  /\ (exit_status (fst (main w args l)) = 0%Z <-> code = 0%Z)
  /\ (forall name r l1 l2,
        test_filter args = Some name ->
        run_single_test w name (arg_package args) (arg_features args)
          (Some root) l1 = (Returned r, l2) ->
        (status r = FAILED <-> code <> 0%Z)).
Proof.
  intros Hroot Hrun.
  rewrite run_command_returns in Hrun.
  assert (Hres : command_result w (harness_command args) (Some root)
                   default_timeout = (code, out, err)) by congruence.
  clear Hrun.
  rewrite (main_runs w args root l Hroot), Hres. simpl fst.
  assert (Hsingle : forall name r l1 l2,
            test_filter args = Some name ->
            run_single_test w name (arg_package args) (arg_features args)
              (Some root) l1 = (Returned r, l2) ->
            (status r = FAILED <-> code <> 0%Z)).
  { intros name r l1 l2 Hname Hr.
    rewrite run_single_test_returns in Hr.
    unfold harness_command in Hres. rewrite Hname in Hres. rewrite Hres in Hr.
    injection Hr as <- _. apply (result_of_status name code out err). }
  split; [|split; [|split; [|exact Hsingle]]];
    destruct (Z.eqb_spec code 0) as [->|Hne]; simpl exit_status;
    split; intros; try congruence; try discriminate.
Qed.

Lemma exit_status_follows_harness_code_witness :
  exit_status (fst (main broken_world one_test [])) = 1%Z.
Proof.
  apply (proj1 (proj2 (exit_status_follows_harness_code broken_world one_test
                         project [] [] (-1)%Z ""
                         "No such file or directory: 'cargo'"
                         eq_refl eq_refl))).
  discriminate.
Defined.

(** C10. [run_command] is total over its error branches: whatever the
    external process does, it returns a triple (exit code, stdout, stderr)
    and propagates no exception, printing nothing; a completed process gives
    its own code and output, a timed-out one gives -1, the empty text and
    the timeout message, and any other exception gives -1, the empty text
    and the text of the exception. *)
Theorem run_command_total (w : World) (command : list string)
  (dir : option Path) (timeout : Z) (l : log) :
  exists code out err,
    run_command w command dir timeout l = (Returned (code, out, err), l)
    /\ (forall result,
          subprocess_run w command dir timeout = inr result ->
          (code, out, err) = (returncode result, stdout result, stderr result))
    /\ (subprocess_run w command dir timeout = inl TimeoutExpired ->
        (code, out, err)
        = ((-1)%Z, "", "Command timed out after " ++ str_int timeout ++ " seconds"))
    /\ (forall text,
          subprocess_run w command dir timeout = inl (OtherException text) ->
          (code, out, err) = ((-1)%Z, "", text)).
Proof.
  destruct (command_result w command dir timeout) as [[code out] err] eqn:E.
  exists code, out, err. rewrite run_command_returns, E.
  unfold command_result in E.
  repeat split.
  - intros result H. rewrite H in E. now symmetry.
  - intros H. rewrite H in E. now symmetry.
  - intros text H. rewrite H in E. now symmetry.
Qed.

(** The loop of [analyze_failure] stops at the first signature that occurs
    in the text, whatever comes after it in the catalog. *)
Lemma first_signature_earliest (err : string)
  (pre post : list (string * Diagnosis)) (sig : string) (d cur : Diagnosis) :
  contains (lower sig) (lower err) = true ->
  (forall s' d', In (s', d') pre -> contains (lower s') (lower err) = false) ->
  first_signature err (pre +++ (sig, d) :: post) cur = d.
Proof.
  intros Hsig. induction pre as [|[s' d'] pre IH]; intros Hpre; simpl.
  - now rewrite Hsig.
  - rewrite (Hpre s' d' (or_introl eq_refl)).
    apply IH. intros s2 d2 Hin. apply (Hpre s2 d2). now right.
Qed.

Lemma first_signature_none (err : string) (ps : list (string * Diagnosis))
  (cur : Diagnosis) :
  (forall s d, In (s, d) ps -> contains (lower s) (lower err) = false) ->
  first_signature err ps cur = cur.
Proof.
  induction ps as [|[s d] ps IH]; intros Hps; simpl; [reflexivity|].
  rewrite (Hps s d (or_introl eq_refl)).
  apply IH. intros s2 d2 Hin. apply (Hps s2 d2). now right.
Qed.

Lemma first_signature_in (err : string) (ps : list (string * Diagnosis))
  (cur : Diagnosis) :
  first_signature err ps cur = cur \/ In (first_signature err ps cur) (map snd ps).
Proof.
  induction ps as [|[s d] ps IH]; simpl; [now left|].
  destruct (contains (lower s) (lower err)); [right; now left|].
  destruct IH as [IH|IH]; [now left | right; now right].
Qed.

(** C7. For every stderr text [analyze_failure] returns one diagnosis, the
    default one or one of the catalog, and never raises.  When a signature
    of the catalog occurs in the text, letter case ignored, and none
    declared before it does, its diagnosis is returned, whatever signatures
    declared after it occur too.  When no signature occurs, the default
    diagnosis is returned: the unknown-error category, the generic
    suggestion and [fixable] false. *)
Theorem analyze_failure_first_match_wins (err name : string) :
  (forall pre sig d post,
     patterns = pre +++ (sig, d) :: post ->
     contains (lower sig) (lower err) = true ->
     (forall s' d', In (s', d') pre -> contains (lower s') (lower err) = false) ->
     analyze_failure err name = d)
  /\ ((forall sig d,
         In (sig, d) patterns -> contains (lower sig) (lower err) = false) ->
      analyze_failure err name = default_diagnosis)
  /\ default_diagnosis
     = mkDiagnosis "未知错误" "请检查测试代码和实现代码" false
  /\ (analyze_failure err name = default_diagnosis
      \/ In (analyze_failure err name) (map snd patterns)).
Proof.
  unfold analyze_failure. repeat split.
  - intros pre sig d post Hcat Hsig Hpre. rewrite Hcat.
    now apply first_signature_earliest.
  - apply first_signature_none.
  - apply first_signature_in.
Qed.

(** A text in which the later-declared signature comes first: the
    earlier-declared one still wins. *)
Example earliest_declared_wins :
  analyze_failure "connection refused; then assertion failed" "t"
  = mkDiagnosis "断言失败" "检查断言条件，确保测试预期与实际行为一致" false.
Proof. reflexivity. Qed.

(** C8, as stated, fails: the panic message of an overflow holds the
    substring, and the diagnosis is the one of the earlier signature
    [panicked at], not fixable. *)
Lemma overflow_inside_panic_is_panic :
  contains "attempt to add with overflow"
    "thread 'main' panicked at 'attempt to add with overflow', src/main.rs:3:5"
  = true
  /\ analyze_failure
       "thread 'main' panicked at 'attempt to add with overflow', src/main.rs:3:5"
       "test_sum"
     = mkDiagnosis "Panic"
         "代码发生 panic，检查是否访问了无效数据或触发了 panic!" false.
Proof. split; reflexivity. Qed.

(** C8, amended. For every stderr text that holds the substring
    [attempt to add with overflow] and holds neither of the two signatures
    declared before it, [assertion failed] and [panicked at], in any letter
    case, the diagnosis is the arithmetic-overflow one, with [fixable]
    true. *)
Theorem overflow_diagnosis_when_first (err name : string) :
  contains "attempt to add with overflow" err = true ->
  contains "assertion failed" (lower err) = false ->
  contains "panicked at" (lower err) = false ->
  analyze_failure err name
  = mkDiagnosis "算术溢出" "使用 checked_add、wrapping_add 或 saturating_add" true.
Proof.
  intros Hsub Hassert Hpanic.
  apply contains_lower in Hsub.
  unfold analyze_failure.
  apply (first_signature_earliest err
           [ ("assertion failed",
              mkDiagnosis "断言失败" "检查断言条件，确保测试预期与实际行为一致" false);
             ("panicked at",
              mkDiagnosis "Panic"
                "代码发生 panic，检查是否访问了无效数据或触发了 panic!" false) ]).
  - exact Hsub.
  - intros s' d' [Heq|[Heq|[]]]; inversion Heq; subst; assumption.
Qed.

Lemma overflow_diagnosis_witness :
  analyze_failure "error: attempt to add with overflow" "test_sum"
  = mkDiagnosis "算术溢出" "使用 checked_add、wrapping_add 或 saturating_add" true.
Proof.
  apply overflow_diagnosis_when_first; reflexivity.
Defined.

End RunRustTestsFacts.

(** ** The auditor *)

Module CheckErrorToleranceFacts.

Import Text Re Py CheckErrorTolerance PyFacts.
Local Open Scope py_scope.

Lemma check_patterns_append (path : string) (n : nat) (line stripped : string)
  (rules : list Rule) (issues : list Issue) :
  fold_left (check_pattern path n line stripped) rules issues
  = issues
    +++ map (issue_of path n stripped)
          (filter (fun config => re_search (rule_pattern config) line) rules).
Proof.
  revert issues; induction rules as [|config rules IH]; intros issues; simpl.
  - now rewrite app_nil_r.
  - rewrite IH. unfold check_pattern.
    destruct (re_search (rule_pattern config) line); simpl.
    + now rewrite <- app_assoc.
    + reflexivity.
Qed.

Lemma check_line_append (path : string) (issues : list Issue)
  (numbered : nat * string) :
  check_line path issues numbered = issues +++ line_issues path numbered.
Proof.
  destruct numbered as [n line]. unfold check_line, line_issues, eligible.
  simpl fst; simpl snd.
  destruct (startswith "//" (strip line)); cbn [negb andb].
  - now rewrite app_nil_r.
  - destruct (contains "#[test]" line || contains "#test" line); cbn [negb].
    + now rewrite app_nil_r.
    + apply check_patterns_append.
Qed.

Lemma check_lines_append (path : string) (numbered : list (nat * string))
  (issues : list Issue) :
  fold_left (check_line path) numbered issues
  = issues +++ flat_map (line_issues path) numbered.
Proof.
  revert issues; induction numbered as [|x rest IH]; intros issues; simpl.
  - now rewrite app_nil_r.
  - now rewrite IH, check_line_append, <- app_assoc.
Qed.

Lemma issues_at_app (n : nat) (xs ys : list Issue) :
  issues_at n (xs +++ ys) = issues_at n xs +++ issues_at n ys.
Proof. apply filter_app. Qed.

Lemma issues_at_line (path : string) (k n : nat) (line : string) :
  issues_at k (line_issues path (n, line))
  = if Nat.eqb n k then line_issues path (n, line) else [].
Proof.
  unfold line_issues, issues_at. simpl fst; simpl snd.
  destruct (eligible line); [|now destruct (Nat.eqb n k)].
  induction (matching_rules line) as [|config rules IH]; simpl.
  - now destruct (Nat.eqb n k).
  - rewrite IH. now destruct (Nat.eqb n k).
Qed.

(** In the scan of the lines numbered from [start], the issues at number
    [start + n] are the ones of the line at index [n]. *)
Lemma issues_at_enumerate (path : string) (lines : list string) :
  forall (start n : nat) (line : string),
    nth_error lines n = Some line ->
    issues_at (start + n) (flat_map (line_issues path) (enumerate lines start))
    = line_issues path (start + n, line).
Proof.
  induction lines as [|first rest IH]; intros start n line Hnth.
  - destruct n; discriminate.
  - simpl. rewrite issues_at_app, issues_at_line.
    destruct n as [|n]; simpl in Hnth.
    + injection Hnth as ->. rewrite Nat.add_0_r, Nat.eqb_refl.
      assert (Hrest : forall s, (start < s)%nat ->
                issues_at start (flat_map (line_issues path) (enumerate rest s)) = []).
      { clear. induction rest as [|x rest IH]; intros s Hs; simpl; [reflexivity|].
        rewrite issues_at_app, issues_at_line.
        destruct (Nat.eqb_spec s start); [lia|].
        simpl. apply IH. lia. }
      rewrite Hrest by lia. apply app_nil_r.
    + destruct (Nat.eqb_spec start (start + S n)); [lia|].
      simpl. replace (start + S n)%nat with (S start + n)%nat by lia.
      now apply IH.
Qed.

Lemma issues_at_check_lines (path : string) (lines : list string) (n : nat)
  (line : string) :
  nth_error lines n = Some line ->
  issues_at (S n) (check_lines path lines) = line_issues path (S n, line).
Proof.
  intros Hnth. unfold check_lines. rewrite check_lines_append. simpl.
  apply (issues_at_enumerate path lines 1 n line Hnth).
Qed.


Lemma check_rust_file_reads (w : World) (p : Path) (lines : list string)
  (l : log) :
  readlines w p = inr lines ->
  check_rust_file w p l = (Returned (check_lines (path_str p) lines), l).
Proof. intros Hread. unfold check_rust_file. now rewrite Hread. Qed.

(** C5. For every line of a readable file that the scan looks at (not a
    comment line, no test marker), the issues [check_rust_file] reports for
    its line number are one per rule of the catalog whose pattern is found
    in the line, in catalog order, each with the severity and the category
    of its rule: a line matching K rules gets exactly K issues.  The keys of
    the catalog are distinct. *)
Theorem one_issue_per_matching_rule (w : World) (p : Path)
  (lines : list string) (l : log) (n : nat) (line : string) :
  readlines w p = inr lines ->
  nth_error lines n = Some line ->
  eligible line = true ->
  exists issues,
    check_rust_file w p l = (Returned issues, l)
    /\ issues_at (S n) issues
       = map (issue_of (path_str p) (S n) (strip line)) (matching_rules line)
    /\ List.length (issues_at (S n) issues) = List.length (matching_rules line)
    /\ map (fun i => (severity i, category i)) (issues_at (S n) issues)
       = map (fun config => (rule_severity config, rule_category config))
           (matching_rules line)
    /\ NoDup (map rule_name CHECK_PATTERNS).
Proof.
  intros Hread Hnth Hel.
  exists (check_lines (path_str p) lines).
  split; [now apply check_rust_file_reads|].
  assert (Hat : issues_at (S n) (check_lines (path_str p) lines)
                = map (issue_of (path_str p) (S n) (strip line))
                    (matching_rules line)).
  { rewrite (issues_at_check_lines (path_str p) lines n line Hnth).
    unfold line_issues. simpl fst; simpl snd. now rewrite Hel. }
  rewrite Hat. repeat split.
  - apply length_map.
  - rewrite map_map. reflexivity.
  - vm_compute. repeat constructor; simpl; intuition discriminate.
Qed.

Lemma one_issue_per_matching_rule_witness :
  exists issues,
    check_rust_file (crate_world risky_lines) lib_rs [] = (Returned issues, [])
    /\ issues_at 3 issues
       = map (issue_of "crate/src/lib.rs" 3
                "std::env::var(KEY).unwrap().parse().unwrap()")
           [rule_unwrap; rule_parse_unwrap].
Proof.
  destruct (one_issue_per_matching_rule (crate_world risky_lines) lib_rs
              risky_lines [] 2
              ("    std::env::var(KEY).unwrap().parse().unwrap()" ++ nl)
              eq_refl eq_refl eq_refl)
    as (issues & Hrun & Hat & _).
  exists issues. split; [exact Hrun | exact Hat].
Defined.

(** C6. A line whose stripped text starts with the comment marker gets no
    issue from [check_rust_file], whatever its text matches. *)
Theorem comment_line_yields_no_issue (w : World) (p : Path)
  (lines : list string) (l : log) (n : nat) (line : string) :
  readlines w p = inr lines ->
  nth_error lines n = Some line ->
  startswith "//" (strip line) = true ->
  exists issues,
    check_rust_file w p l = (Returned issues, l)
    /\ issues_at (S n) issues = [].
Proof.
  intros Hread Hnth Hcomment.
  exists (check_lines (path_str p) lines).
  split; [now apply check_rust_file_reads|].
  rewrite (issues_at_check_lines (path_str p) lines n line Hnth).
  unfold line_issues, eligible. simpl snd. now rewrite Hcomment.
Qed.

Lemma comment_line_yields_no_issue_witness :
  (exists issues,
     check_rust_file (crate_world risky_lines) lib_rs [] = (Returned issues, [])
     /\ issues_at 2 issues = [])
  /\ matching_rules ("    // let user_id = get_user_id().unwrap();" ++ nl)
     = [rule_unwrap].
Proof.
  split.
  - exact (comment_line_yields_no_issue (crate_world risky_lines) lib_rs
             risky_lines [] 1
             ("    // let user_id = get_user_id().unwrap();" ++ nl)
             eq_refl eq_refl eq_refl).
  - reflexivity.
Defined.

Lemma check_rust_file_returns (w : World) (p : Path) (l : log) :
  exists l', check_rust_file w p l = (Returned (file_issues w p), l').
Proof.
  unfold check_rust_file, file_issues.
  destruct (readlines w p) as [e|lines].
  - rewrite bind_eprint. eexists. reflexivity.
  - eexists. reflexivity.
Qed.

Lemma check_files_returns (w : World) (files : list Path) :
  forall (issues : list Issue) (l : log),
  exists l',
    check_files w files issues l
    = (Returned (issues +++ flat_map (file_issues w) files), l').
Proof.
  induction files as [|p rest IH]; intros issues l; simpl.
  - exists l. now rewrite app_nil_r.
  - destruct (check_rust_file_returns w p l) as [l1 H1].
    erewrite bind_returned by exact H1.
    destruct (IH (issues +++ file_issues w p) l1) as [l2 H2].
    exists l2. now rewrite H2, <- app_assoc.
Qed.

Lemma no_high_filter (issues : list Issue) :
  filter (fun i => Severity_eqb (severity i) HIGH) issues = []
  <-> ~ Exists (fun i => severity i = HIGH) issues.
Proof.
  induction issues as [|i rest IH]; simpl.
  - split; [intros _ H; inversion H | reflexivity].
  - destruct (severity i) eqn:Hsev; simpl.
    + split; [discriminate|]. intros H. exfalso. apply H. now left.
    + rewrite IH. split.
      * intros H Hex. inversion Hex; subst; [congruence | contradiction].
      * intros H Hex. apply H. now right.
    + rewrite IH. split.
      * intros H Hex. inversion Hex; subst; [congruence | contradiction].
      * intros H Hex. apply H. now right.
Qed.

(** When the path to scan exists, [main] exits through [sys.exit], with
    status 1 if the filter for HIGH issues keeps something and 0 if not. *)
Lemma main_exit (w : World) (arg : option Path) (l : log) :
  path_exists w (check_path_of w arg) = true ->
  exists l',
    main w arg l
    = (Exited
         (match filter (fun i => Severity_eqb (severity i) HIGH)
                  (all_issues_under w (check_path_of w arg)) with
          | [] => 0%Z
          | _ :: _ => 1%Z
          end),
       l').
Proof.
  intros Hexists. unfold main, all_issues_under.
  rewrite Hexists. cbn [negb]. rewrite !bind_print.
  destruct (find_rust_files w (check_path_of w arg)) as [|p rest] eqn:Hfiles.
  - rewrite bind_print. eexists. reflexivity.
  - rewrite !bind_print.
    match goal with
    | |- context [bind (check_files w ?fs ?acc) _ ?lg] =>
        destruct (check_files_returns w fs acc lg) as [l1 H1]
    end.
    erewrite bind_returned by exact H1.
    rewrite bind_print. cbn [app].
    destruct (filter _ (flat_map (file_issues w) (p :: rest))) as [|h hs].
    + destruct (flat_map (file_issues w) (p :: rest));
        rewrite bind_print; eexists; reflexivity.
    + rewrite bind_print. eexists. reflexivity.
Qed.

(** C4. When the path to scan exists, so that the scan takes place, the
    exit status of the auditor is 1 if and only if some issue of the
    scanned files has severity HIGH, and it is 0 otherwise: when no file is
    found, when no issue is found and when every issue is MEDIUM or LOW.
    The issues of the scanned files are the list the loop of [main] over
    the files builds. *)
Theorem exit_status_one_iff_high_issue (w : World) (arg : option Path) (l : log) :
  path_exists w (check_path_of w arg) = true ->
  (exit_status (fst (main w arg l)) = 1%Z
   <-> Exists (fun i => severity i = HIGH)
         (all_issues_under w (check_path_of w arg)))
  /\ (exit_status (fst (main w arg l)) = 0%Z
      <-> ~ Exists (fun i => severity i = HIGH)
            (all_issues_under w (check_path_of w arg)))
  /\ (find_rust_files w (check_path_of w arg) = [] ->
      exit_status (fst (main w arg l)) = 0%Z)
  /\ (forall l0,
        fst (check_files w (find_rust_files w (check_path_of w arg)) [] l0)
        = Returned (all_issues_under w (check_path_of w arg))).
Proof.
  intros Hexists.
  assert (Hscan : forall l0,
            fst (check_files w (find_rust_files w (check_path_of w arg)) [] l0)
            = Returned (all_issues_under w (check_path_of w arg))).
  { intros l0.
    destruct (check_files_returns w (find_rust_files w (check_path_of w arg))
                [] l0) as [l1 H1].
    now rewrite H1. }
  destruct (main_exit w arg l Hexists) as [l' Hmain].
  rewrite Hmain. simpl fst. simpl exit_status.
  pose proof (no_high_filter (all_issues_under w (check_path_of w arg))) as Hhigh.
  assert (Hdec : forall issues : list Issue,
            Exists (fun i => severity i = HIGH) issues
            \/ ~ Exists (fun i => severity i = HIGH) issues).
  { intros issues. destruct (Exists_dec (fun i => severity i = HIGH) issues);
      [|now left | now right].
    intros i. destruct (severity i); [now left | right | right]; discriminate. }
  split; [|split; [|split; [|exact Hscan]]].
  - destruct (filter _ _) as [|h hs].
    + split; [discriminate|]. intros Hex. exfalso. now apply (proj1 Hhigh).
    + split; [|reflexivity]. intros _.
      destruct (Hdec (all_issues_under w (check_path_of w arg))) as [Hex|Hno];
        [exact Hex|].
      apply Hhigh in Hno. discriminate.
  - destruct (filter _ _) as [|h hs].
    + split; [|reflexivity]. intros _. now apply Hhigh.
    + split; [discriminate|]. intros Hno. apply Hhigh in Hno. discriminate.
  - intros Hnone. unfold all_issues_under. rewrite Hnone. reflexivity.
Qed.

Lemma exit_status_one_iff_high_issue_witness :
  exit_status (fst (main (crate_world risky_lines) None [])) = 1%Z
  /\ exit_status (fst (main (crate_world sloppy_lines) None [])) = 0%Z.
Proof.
  split.
  - apply (proj1 (exit_status_one_iff_high_issue (crate_world risky_lines)
                    None [] eq_refl)).
    vm_compute. left. reflexivity.
  - apply (proj1 (proj2 (exit_status_one_iff_high_issue
                           (crate_world sloppy_lines) None [] eq_refl))).
    vm_compute. intros H. inversion H as [? ? Hsev|? ? Hrest]; subst.
    + discriminate.
    + inversion Hrest.
Defined.

End CheckErrorToleranceFacts.

(** ** The two report builders *)

Module ReportFacts.

(** C9. The report builders are deterministic: the rendered text is a
    function of the collection handed in and of nothing else (no clock, no
    environment, no iteration over an unordered container), so two runs on
    identical collections of issues, or of test results, render identical
    texts. *)
Theorem reports_are_deterministic
  (issues1 issues2 : list CheckErrorTolerance.Issue)
  (results1 results2 : list RunRustTests.TestResult) :
  issues1 = issues2 ->
  results1 = results2 ->
  CheckErrorTolerance.format_report issues1
  = CheckErrorTolerance.format_report issues2
  /\ RunRustTests.format_test_report results1
     = RunRustTests.format_test_report results2.
Proof. intros -> ->. split; reflexivity. Qed.

Lemma reports_are_deterministic_witness :
  CheckErrorTolerance.format_report
    (CheckErrorTolerance.check_lines "crate/src/lib.rs"
       CheckErrorTolerance.risky_lines)
  = CheckErrorTolerance.format_report
      (CheckErrorTolerance.issues_at 3
         (CheckErrorTolerance.check_lines "crate/src/lib.rs"
            CheckErrorTolerance.risky_lines))
  /\ RunRustTests.format_test_report
       (RunRustTests.parse_test_output "test net::connect ...FAILED")
     = RunRustTests.format_test_report
         [RunRustTests.mkTestResult "net::connect" RunRustTests.FAILED 0
            "" "" "" false].
Proof.
  apply reports_are_deterministic; vm_compute; reflexivity.
Defined.

End ReportFacts.

(** ** More on the auditor *)

Module AuditFacts.

Import Text Re Py CheckErrorTolerance Audit PyFacts CheckErrorToleranceFacts.
Local Open Scope py_scope.

Lemma should_skip_file_iff (p : Path) :
  should_skip_file p = true <-> In "target" (parts p).
Proof.
  unfold should_skip_file.
  destruct (existsb (String.eqb "target") (parts p)) eqn:E.
  - split; [intros _|reflexivity].
    apply existsb_exists in E as (x & Hin & Heq).
    apply String.eqb_eq in Heq. now subst.
  - split; [discriminate|]. intros Hin.
    assert (existsb (String.eqb "target") (parts p) = true) as E'.
    { apply existsb_exists. exists "target". split; [exact Hin | apply String.eqb_refl]. }
    congruence.
Qed.

Lemma find_loop_filters (paths acc : list Path) :
  fold_left
    (fun rust_files p =>
       if negb (should_skip_file p) then rust_files +++ [p] else rust_files)
    paths acc
  = acc +++ filter (fun p => negb (should_skip_file p)) paths.
Proof.
  revert acc; induction paths as [|p rest IH]; intros acc; simpl.
  - now rewrite app_nil_r.
  - rewrite IH. destruct (negb (should_skip_file p)); simpl.
    + now rewrite <- app_assoc.
    + reflexivity.
Qed.

(** X1. [find_rust_files] keeps, in the order [rglob] gives them, exactly
    the paths none of whose parts is [target]. *)
Theorem find_rust_files_drops_target (w : World) (root : Path) :
  find_rust_files w root
  = filter (fun p => negb (should_skip_file p)) (rglob_rs w root)
  /\ (forall p,
        In p (find_rust_files w root)
        <-> In p (rglob_rs w root) /\ ~ In "target" (parts p)).
Proof.
  assert (H : find_rust_files w root
              = filter (fun p => negb (should_skip_file p)) (rglob_rs w root)).
  { unfold find_rust_files. now rewrite find_loop_filters. }
  split; [exact H|].
  intros p. rewrite H, filter_In, negb_true_iff, <- should_skip_file_iff.
  destruct (should_skip_file p); intuition congruence.
Qed.

Lemma stdout_of_app (l1 l2 : log) :
  stdout_of (l1 +++ l2) = stdout_of l1 +++ stdout_of l2.
Proof. unfold stdout_of. now rewrite filter_app, map_app. Qed.

Lemma warnings_cons (w : World) (p : Path) (rest : list Path) :
  warnings w (p :: rest)
  = match readlines w p with
    | inl e => [(Stderr, "⚠️  无法读取文件 " ++ path_str p ++ ": " ++ e)]
    | inr _ => []
    end +++ warnings w rest.
Proof. reflexivity. Qed.

Lemma stdout_of_warnings (w : World) (files : list Path) :
  stdout_of (warnings w files) = [].
Proof.
  induction files as [|p rest IH]; [reflexivity|].
  rewrite warnings_cons, stdout_of_app, IH.
  now destruct (readlines w p).
Qed.

Lemma file_issues_unreadable (w : World) (p : Path) :
  readable w p = false -> file_issues w p = [].
Proof. unfold readable, file_issues. now destruct (readlines w p). Qed.

Lemma flat_map_readable (w : World) (files : list Path) :
  flat_map (file_issues w) (filter (readable w) files)
  = flat_map (file_issues w) files.
Proof.
  induction files as [|p rest IH]; [reflexivity|]. simpl.
  destruct (readable w p) eqn:E; simpl.
  - now rewrite IH.
  - now rewrite (file_issues_unreadable w p E), IH.
Qed.

Lemma check_rust_file_exact (w : World) (p : Path) (l : log) :
  check_rust_file w p l = (Returned (file_issues w p), l +++ warnings w [p]).
Proof.
  unfold check_rust_file, file_issues. rewrite warnings_cons.
  destruct (readlines w p) as [e|lines].
  - rewrite bind_eprint. reflexivity.
  - unfold ret. now rewrite app_nil_r.
Qed.

Lemma check_files_exact (w : World) (files : list Path) :
  forall (issues : list Issue) (l : log),
    check_files w files issues l
    = (Returned (issues +++ flat_map (file_issues w) files),
       l +++ warnings w files).
Proof.
  induction files as [|p rest IH]; intros issues l.
  - simpl. now rewrite !app_nil_r.
  - simpl check_files.
    erewrite bind_returned by apply check_rust_file_exact.
    rewrite IH, warnings_cons. simpl flat_map.
    now rewrite <- !app_assoc.
Qed.

(** X2. A file that cannot be read does not stop the scan: the loop of
    [main] over the files returns the issues of the readable files, in file
    order, as if the others were not in the list; it prints one warning on
    standard error for each unreadable file and nothing on standard
    output. *)
Theorem unreadable_files_are_skipped (w : World) (files : list Path)
  (issues : list Issue) (l : log) :
  check_files w files issues l
  = (Returned (issues +++ flat_map (file_issues w) (filter (readable w) files)),
     l +++ warnings w files)
  /\ stdout_of (l +++ warnings w files) = stdout_of l
  /\ List.length (warnings w files)
     = List.length (filter (fun p => negb (readable w p)) files).
Proof.
  split; [|split].
  - rewrite flat_map_readable. apply check_files_exact.
  - rewrite stdout_of_app, stdout_of_warnings. apply app_nil_r.
  - induction files as [|p rest IH]; [reflexivity|].
    rewrite warnings_cons, length_app, IH. unfold readable. simpl.
    now destruct (readlines w p).
Qed.

Lemma enumerate_In {A : Type} (xs : list A) :
  forall (start m : nat) (x : A),
    In (m, x) (enumerate xs start) ->
    exists n, m = (start + n)%nat /\ nth_error xs n = Some x.
Proof.
  induction xs as [|y rest IH]; intros start m x Hin; [contradiction|].
  destruct Hin as [Heq|Hin].
  - injection Heq as <- <-. exists 0%nat. split; [lia | reflexivity].
  - destruct (IH (S start) m x Hin) as (n & -> & Hnth).
    exists (S n). split; [lia | exact Hnth].
Qed.

Lemma check_lines_flat (path : string) (lines : list string) :
  check_lines path lines = flat_map (line_issues path) (enumerate lines 1).
Proof. unfold check_lines. now rewrite check_lines_append. Qed.

Lemma issue_origin (path : string) (lines : list string)
  (i : Issue) :
  In i (check_lines path lines) ->
  exists (n : nat) (line : string) (config : Rule),
    nth_error lines n = Some line
    /\ eligible line = true
    /\ In config CHECK_PATTERNS
    /\ re_search (rule_pattern config) line = true
    /\ i = issue_of path (S n) (strip line) config
    /\ file_path i = path
    /\ line_number i = S n
    /\ (1 <= line_number i <= List.length lines)%nat
    /\ line_content i = strip line.
Proof.
  rewrite check_lines_flat. intros Hin.
  apply in_flat_map in Hin as ([m line] & Hen & Hi).
  destruct (enumerate_In lines 1 m line Hen) as (n & -> & Hnth).
  unfold line_issues in Hi. simpl fst in Hi; simpl snd in Hi.
  destruct (eligible line) eqn:Hel; [|contradiction].
  apply in_map_iff in Hi as (config & <- & Hcfg).
  unfold matching_rules in Hcfg. apply filter_In in Hcfg as [Hcat Hre].
  exists n, line, config.
  assert (Hlen : (n < List.length lines)%nat).
  { apply nth_error_Some. congruence. }
  repeat split; try assumption; simpl; lia.
Qed.

(** X3. Every issue of a scan comes from a line of the file the scan looks
    at and from a rule of the catalog found in that line: it carries the
    path given, the number of the line (from 1 to the number of lines), the
    stripped text of the line and the fields of the rule. *)
Theorem issue_points_at_scanned_line (path : string) (lines : list string)
  (i : Issue) :
  In i (check_lines path lines) ->
  exists (n : nat) (line : string) (config : Rule),
    nth_error lines n = Some line
    /\ eligible line = true
    /\ In config CHECK_PATTERNS
    /\ re_search (rule_pattern config) line = true
    /\ i = issue_of path (S n) (strip line) config
    /\ file_path i = path
    /\ line_number i = S n
    /\ (1 <= line_number i <= List.length lines)%nat
    /\ line_content i = strip line.
Proof. apply issue_origin. Qed.

Lemma issue_points_at_scanned_line_witness :
  exists (n : nat) (line : string) (config : Rule),
    nth_error risky_lines n = Some line
    /\ issue_of "crate/src/lib.rs" 3
         "std::env::var(KEY).unwrap().parse().unwrap()" rule_parse_unwrap
       = issue_of "crate/src/lib.rs" (S n) (strip line) config.
Proof.
  destruct (issue_points_at_scanned_line "crate/src/lib.rs" risky_lines
              (issue_of "crate/src/lib.rs" 3
                 "std::env::var(KEY).unwrap().parse().unwrap()"
                 rule_parse_unwrap))
    as (n & line & config & Hnth & _ & _ & _ & Heq & _).
  - vm_compute. right. left. reflexivity.
  - exists n, line, config. split; [exact Hnth | exact Heq].
Defined.

Lemma sorted_app (xs ys : list nat) :
  StronglySorted le xs -> StronglySorted le ys ->
  (forall x y, In x xs -> In y ys -> (x <= y)%nat) ->
  StronglySorted le (xs +++ ys).
Proof.
  intros Hxs Hys Hcross. induction Hxs as [|x xs Hxs IH Hall]; [exact Hys|].
  simpl. constructor.
  - apply IH. intros a b Ha Hb. apply Hcross; [now right | exact Hb].
  - apply Forall_app. split; [exact Hall|].
    apply Forall_forall. intros y Hy. apply Hcross; [now left | exact Hy].
Qed.

Lemma line_issues_number (path : string) (m : nat) (line : string) (i : Issue) :
  In i (line_issues path (m, line)) -> line_number i = m.
Proof.
  unfold line_issues. simpl fst; simpl snd.
  destruct (eligible line); [|contradiction].
  intros Hin. apply in_map_iff in Hin as (config & <- & _). reflexivity.
Qed.

Lemma line_issues_sorted (path : string) (m : nat) (line : string) :
  StronglySorted le (map line_number (line_issues path (m, line))).
Proof.
  pose proof (line_issues_number path m line) as Hnum.
  induction (line_issues path (m, line)) as [|i rest IH]; simpl; constructor.
  - apply IH. intros j Hj. apply Hnum. now right.
  - apply Forall_forall. intros k Hk. apply in_map_iff in Hk as (j & <- & Hj).
    rewrite (Hnum i (or_introl eq_refl)), (Hnum j (or_intror Hj)). lia.
Qed.

Lemma scan_sorted (path : string) (lines : list string) :
  forall start,
    StronglySorted le
      (map line_number (flat_map (line_issues path) (enumerate lines start)))
    /\ (forall i,
          In i (flat_map (line_issues path) (enumerate lines start)) ->
          (start <= line_number i)%nat).
Proof.
  induction lines as [|line rest IH]; intros start.
  - split; [constructor | contradiction].
  - destruct (IH (S start)) as [Hsorted Hlow]. simpl. split.
    + rewrite map_app. apply sorted_app.
      * apply line_issues_sorted.
      * exact Hsorted.
      * intros x y Hx Hy.
        apply in_map_iff in Hx as (i & <- & Hi).
        apply in_map_iff in Hy as (j & <- & Hj).
        rewrite (line_issues_number path start line i Hi).
        specialize (Hlow j Hj). lia.
    + intros i Hi. apply in_app_or in Hi as [Hi|Hi].
      * rewrite (line_issues_number path start line i Hi). lia.
      * specialize (Hlow i Hi). lia.
Qed.

(** X4. The issues of a scan are listed in line order: the line numbers
    never decrease along the list. *)
Theorem issues_are_in_line_order (path : string) (lines : list string) :
  StronglySorted le (map line_number (check_lines path lines)).
Proof. rewrite check_lines_flat. apply scan_sorted. Qed.

(** X5. A line that holds one of the test markers, anywhere in its text,
    gets no issue from [check_rust_file], whatever else it holds. *)
Theorem test_marker_line_yields_no_issue (w : World) (p : Path)
  (lines : list string) (l : log) (n : nat) (line : string) :
  readlines w p = inr lines ->
  nth_error lines n = Some line ->
  contains "#[test]" line || contains "#test" line = true ->
  exists issues,
    check_rust_file w p l = (Returned issues, l)
    /\ issues_at (S n) issues = [].
Proof.
  intros Hread Hnth Hmark.
  exists (check_lines (path_str p) lines).
  split; [now apply check_rust_file_reads|].
  rewrite (issues_at_check_lines (path_str p) lines n line Hnth).
  unfold line_issues, eligible. simpl snd. rewrite Hmark.
  now rewrite andb_false_r.
Qed.

Lemma test_marker_line_witness :
  exists issues,
    check_rust_file
      (crate_world ["let port = raw.parse().unwrap(); // #[test] only" ++ nl])
      lib_rs []
    = (Returned issues, [])
    /\ issues_at 1 issues = [].
Proof.
  exact (test_marker_line_yields_no_issue
           (crate_world ["let port = raw.parse().unwrap(); // #[test] only" ++ nl])
           lib_rs
           ["let port = raw.parse().unwrap(); // #[test] only" ++ nl]
           [] 0
           ("let port = raw.parse().unwrap(); // #[test] only" ++ nl)
           eq_refl eq_refl eq_refl).
Defined.


Lemma by_severity_loop (issues : list Issue) (d : BySeverity) :
  fold_left add_by_severity issues d
  = mkBySeverity (high d +++ with_severity HIGH issues)
      (medium d +++ with_severity MEDIUM issues)
      (low d +++ with_severity LOW issues).
Proof.
  revert d; induction issues as [|i rest IH]; intros d; simpl.
  - rewrite !app_nil_r. now destruct d.
  - rewrite IH. unfold add_by_severity, with_severity. simpl.
    destruct (severity i); simpl; now rewrite <- ?app_assoc.
Qed.

Lemma severity_groups_split (issues : list Issue) :
  high (by_severity issues) = with_severity HIGH issues
  /\ medium (by_severity issues) = with_severity MEDIUM issues
  /\ low (by_severity issues) = with_severity LOW issues.
Proof. unfold by_severity. rewrite by_severity_loop. now repeat split. Qed.

(** X6. The grouping by severity is a partition that keeps the order: each
    of the three lists holds the issues of its severity in the order of the
    input, so the three counts of the summary table add up to the number of
    issues. *)
Theorem severity_groups_partition (issues : list Issue) :
  high (by_severity issues) = with_severity HIGH issues
  /\ medium (by_severity issues) = with_severity MEDIUM issues
  /\ low (by_severity issues) = with_severity LOW issues
  /\ (List.length (high (by_severity issues))
      + List.length (medium (by_severity issues))
      + List.length (low (by_severity issues)))%nat
     = List.length issues.
Proof.
  unfold by_severity. rewrite by_severity_loop. simpl.
  repeat split.
  unfold with_severity.
  induction issues as [|i rest IH]; [reflexivity|].
  simpl. destruct (severity i); simpl; lia.
Qed.

Lemma add_by_file_keys (d : list (string * list Issue)) (i : Issue) :
  map fst (add_by_file d i)
  = map fst d
    +++ (if existsb (fun k => String.eqb k (file_path i)) (map fst d)
         then [] else [file_path i]).
Proof.
  induction d as [|[k v] rest IH]; [reflexivity|]. simpl.
  destruct (String.eqb k (file_path i)); simpl.
  - now rewrite app_nil_r.
  - now rewrite IH.
Qed.

Lemma existsb_key (keys : list string) (k : string) :
  existsb (fun k0 => String.eqb k0 k) keys = true <-> In k keys.
Proof.
  rewrite existsb_exists. split.
  - intros (x & Hin & Heq). apply String.eqb_eq in Heq. now subst.
  - intros Hin. exists k. split; [exact Hin | apply String.eqb_refl].
Qed.

Lemma add_by_file_nodup (d : list (string * list Issue)) (i : Issue) :
  NoDup (map fst d) -> NoDup (map fst (add_by_file d i)).
Proof.
  intros Hnd. rewrite add_by_file_keys.
  destruct (existsb _ (map fst d)) eqn:E.
  - now rewrite app_nil_r.
  - apply NoDup_app; [exact Hnd | repeat constructor; tauto |].
    intros k Hk [<-|[]].
    apply existsb_key in Hk. congruence.
Qed.

Lemma add_by_file_entries (d : list (string * list Issue)) (i : Issue) :
  NoDup (map fst d) ->
  forall k v,
    In (k, v) (add_by_file d i) ->
    (k <> file_path i /\ In (k, v) d)
    \/ (k = file_path i
        /\ ((~ In k (map fst d) /\ v = [i])
            \/ (exists v0, In (k, v0) d /\ v = v0 +++ [i]))).
Proof.
  induction d as [|[k0 v0] rest IH]; intros Hnd k v Hin; simpl in Hin.
  - destruct Hin as [Heq|[]]. injection Heq as <- <-.
    right. split; [reflexivity|]. left. split; [tauto | reflexivity].
  - simpl in Hnd. apply NoDup_cons_iff in Hnd as [Hfresh Hnd].
    destruct (String.eqb_spec k0 (file_path i)) as [Hk|Hk].
    + destruct Hin as [Heq|Hin].
      * injection Heq as <- <-. right. split; [exact Hk|].
        right. exists v0. split; [now left | reflexivity].
      * left. split; [|now right].
        intros ->. apply Hfresh. rewrite Hk.
        change (file_path i) with (fst (file_path i, v)). now apply in_map.
    + destruct Hin as [Heq|Hin].
      * injection Heq as <- <-. left. split; [exact Hk | now left].
      * destruct (IH Hnd k v Hin) as [[Hne Hold]|[-> [[Hnew ->]|(v1 & Hold & ->)]]].
        -- left. split; [exact Hne | now right].
        -- right. split; [reflexivity|]. left. split; [|reflexivity].
           simpl. intros [Heq|Hold]; [congruence | contradiction].
        -- right. split; [reflexivity|]. right. exists v1.
           split; [now right | reflexivity].
Qed.

Lemma in_file_app (k : string) (xs ys : list Issue) :
  in_file k (xs +++ ys) = in_file k xs +++ in_file k ys.
Proof. apply filter_app. Qed.

Lemma in_file_none (k : string) (xs : list Issue) :
  (forall j, In j xs -> file_path j <> k) -> in_file k xs = [].
Proof.
  induction xs as [|j rest IH]; intros H; [reflexivity|]. simpl.
  destruct (String.eqb_spec k (file_path j)) as [->|_].
  - exfalso. now apply (H j (or_introl eq_refl)).
  - apply IH. intros j' Hj'. apply H. now right.
Qed.

Lemma grouped_step (d : list (string * list Issue)) (seen : list Issue)
  (i : Issue) :
  grouped d seen -> grouped (add_by_file d i) (seen +++ [i]).
Proof.
  intros (Hnd & Hval & Hcov). split; [|split].
  - now apply add_by_file_nodup.
  - intros k v Hin. rewrite in_file_app.
    destruct (add_by_file_entries d i Hnd k v Hin)
      as [[Hne Hold]|[-> [[Hnew ->]|(v0 & Hold & ->)]]].
    + destruct (Hval k v Hold) as [-> Hnon]. simpl.
      destruct (String.eqb_spec k (file_path i)); [contradiction|].
      now rewrite app_nil_r.
    + rewrite in_file_none.
      * simpl. rewrite String.eqb_refl. split; [reflexivity | discriminate].
      * intros j Hj Heq. apply Hnew. rewrite <- Heq. now apply Hcov.
    + destruct (Hval _ v0 Hold) as [-> Hnon]. simpl.
      rewrite String.eqb_refl. split; [reflexivity|].
      intros H. now apply app_eq_nil in H as [_ H].
  - intros j Hj. rewrite add_by_file_keys. apply in_or_app.
    apply in_app_or in Hj as [Hj|[<-|[]]].
    + left. now apply Hcov.
    + destruct (existsb _ (map fst d)) eqn:E.
      * left. now apply existsb_key.
      * right. now left.
Qed.

Lemma grouped_loop (issues : list Issue) :
  forall d seen,
    grouped d seen -> grouped (fold_left add_by_file issues d) (seen +++ issues).
Proof.
  induction issues as [|i rest IH]; intros d seen H; simpl.
  - now rewrite app_nil_r.
  - replace (seen +++ i :: rest) with ((seen +++ [i]) +++ rest)
      by now rewrite <- app_assoc.
    apply IH. now apply grouped_step.
Qed.

(** X7. The grouping by file has one entry for each file that has an issue
    and no other: the keys differ, the list under a key is never empty and
    holds the issues of that file in the order of the input. *)
Theorem file_groups_partition (issues : list Issue) :
  NoDup (map fst (by_file issues))
  /\ (forall k v,
        In (k, v) (by_file issues) -> v = in_file k issues /\ v <> [])
  /\ (forall i,
        In i issues ->
        In (file_path i, in_file (file_path i) issues) (by_file issues)).
Proof.
  assert (H : grouped (by_file issues) issues).
  { apply (grouped_loop issues [] []). repeat split.
    - constructor.
    - contradiction.
    - contradiction.
    - contradiction. }
  destruct H as (Hnd & Hval & Hcov).
  split; [exact Hnd | split; [exact Hval|]].
  intros i Hi. specialize (Hcov i Hi).
  apply in_map_iff in Hcov as ([k v] & Hk & Hin). simpl in Hk. subst k.
  now rewrite <- (proj1 (Hval _ v Hin)).
Qed.


(** The order of the keys: strict, transitive and total on different
    keys. *)
Lemma ltb_lt (a b : string) :
  String.ltb a b = true <-> OrderedTypeEx.String_as_OT.lt a b.
Proof.
  rewrite <- OrderedTypeEx.String_as_OT.cmp_lt.
  unfold String.ltb, OrderedTypeEx.String_as_OT.cmp.
  destruct (String.compare a b); split; congruence.
Qed.

Lemma ltb_trans (a b c : string) :
  String.ltb a b = true -> String.ltb b c = true -> String.ltb a c = true.
Proof.
  rewrite !ltb_lt. apply OrderedTypeEx.String_as_OT.lt_trans.
Qed.

Lemma ltb_irrefl (a : string) : String.ltb a a = false.
Proof.
  destruct (String.ltb a a) eqn:E; [|reflexivity].
  apply ltb_lt in E. apply OrderedTypeEx.String_as_OT.lt_not_eq in E.
  exfalso. apply E. reflexivity.
Qed.

Lemma ltb_total (a b : string) :
  String.ltb a b = false -> a <> b -> String.ltb b a = true.
Proof.
  unfold String.ltb. rewrite (String.compare_antisym a b).
  destruct (String.compare b a) eqn:E; simpl; try congruence.
  apply String.compare_eq_iff in E. congruence.
Qed.

Lemma insert_item_perm (x : string * list Issue)
  (items : list (string * list Issue)) :
  Permutation (insert_item x items) (x :: items).
Proof.
  induction items as [|y rest IH]; simpl; [reflexivity|].
  destruct (String.ltb (fst x) (fst y)); [reflexivity|].
  rewrite IH. apply perm_swap.
Qed.

Lemma insert_item_sorted (x : string * list Issue)
  (items : list (string * list Issue)) :
  StronglySorted key_lt items ->
  (forall y, In y items -> fst y <> fst x) ->
  StronglySorted key_lt (insert_item x items).
Proof.
  intros Hsorted. induction Hsorted as [|y rest Hrest IH Hall]; intros Hnew; simpl.
  - repeat constructor.
  - destruct (String.ltb (fst x) (fst y)) eqn:E.
    + constructor; [now constructor|].
      constructor; [exact E|].
      apply Forall_forall. intros z Hz. unfold key_lt.
      apply (ltb_trans _ (fst y)); [exact E|].
      rewrite Forall_forall in Hall. now apply Hall.
    + constructor.
      * apply IH. intros z Hz. apply Hnew. now right.
      * apply Forall_forall. intros z Hz.
        apply (Permutation_in _ (insert_item_perm x rest)) in Hz.
        destruct Hz as [<-|Hz].
        -- unfold key_lt. apply ltb_total; [exact E|].
           intros Heq. apply (Hnew y (or_introl eq_refl)). now symmetry.
        -- rewrite Forall_forall in Hall. now apply Hall.
Qed.

Lemma sorted_loop (d : list (string * list Issue)) :
  forall acc,
    StronglySorted key_lt acc ->
    NoDup (map fst (acc +++ d)) ->
    StronglySorted key_lt (fold_left (fun acc x => insert_item x acc) d acc)
    /\ Permutation (fold_left (fun acc x => insert_item x acc) d acc) (acc +++ d).
Proof.
  induction d as [|x rest IH]; intros acc Hsorted Hnd; simpl.
  - rewrite app_nil_r. split; [exact Hsorted | reflexivity].
  - assert (Hperm : Permutation (insert_item x acc +++ rest) (acc +++ x :: rest)).
    { rewrite insert_item_perm. simpl. apply Permutation_middle. }
    destruct (IH (insert_item x acc)) as [Hs Hp].
    + apply insert_item_sorted; [exact Hsorted|].
      intros y Hy Heq. rewrite map_app in Hnd. simpl in Hnd.
      apply NoDup_remove_2 in Hnd. apply Hnd.
      apply in_or_app. left. rewrite <- Heq. now apply in_map.
    + apply (Permutation_NoDup (l := map fst (acc +++ x :: rest))); [|exact Hnd].
      apply Permutation_map. now symmetry.
    + split; [exact Hs|]. now rewrite Hp.
Qed.

Lemma sorted_items_sorted_perm (d : list (string * list Issue)) :
  NoDup (map fst d) ->
  StronglySorted key_lt (sorted_items d) /\ Permutation (sorted_items d) d.
Proof.
  intros Hnd. unfold sorted_items.
  destruct (sorted_loop d []) as [Hs Hp]; [constructor | exact Hnd |].
  split; [exact Hs | exact Hp].
Qed.

(** X8. Sorting the items of a dictionary (keys all different) gives the
    same items in strictly ascending order of their keys.  For the grouping
    by file: each file of the report comes once, in ascending order of its
    path. *)
Theorem sorted_items_ascending (d : list (string * list Issue)) :
  NoDup (map fst d) ->
  StronglySorted key_lt (sorted_items d) /\ Permutation (sorted_items d) d.
Proof.
  exact (sorted_items_sorted_perm d).
Qed.

Lemma sorted_items_ascending_witness :
  StronglySorted key_lt
    (sorted_items [("src/b.rs", []); ("src/a.rs", []); ("build.rs", [])])
  /\ sorted_items [("src/b.rs", []); ("src/a.rs", []); ("build.rs", [])]
     = [("build.rs", []); ("src/a.rs", []); ("src/b.rs", [])].
Proof.
  split.
  - apply (sorted_items_ascending
             [("src/b.rs", []); ("src/a.rs", []); ("build.rs", [])]).
    repeat constructor; simpl; intuition discriminate.
  - reflexivity.
Defined.

Lemma sorted_unique (xs : list (string * list Issue)) :
  forall ys,
    StronglySorted key_lt xs -> StronglySorted key_lt ys ->
    Permutation xs ys -> xs = ys.
Proof.
  induction xs as [|x xs IH]; intros ys Hxs Hys Hperm.
  - apply Permutation_nil in Hperm. now subst.
  - destruct ys as [|y ys].
    + apply Permutation_sym, Permutation_nil in Hperm. discriminate.
    + apply StronglySorted_inv in Hxs as [Hxs Hx].
      apply StronglySorted_inv in Hys as [Hys Hy].
      rewrite Forall_forall in Hx, Hy.
      assert (Hxy : x = y).
      { assert (Hin1 : In x (y :: ys))
          by (apply (Permutation_in _ Hperm); now left).
        assert (Hin2 : In y (x :: xs))
          by (apply (Permutation_in _ (Permutation_sym Hperm)); now left).
        destruct Hin1 as [H1|H1]; [now symmetry|].
        destruct Hin2 as [H2|H2]; [exact H2|].
        specialize (Hy x H1). specialize (Hx y H2). unfold key_lt in *.
        pose proof (ltb_trans _ _ _ Hx Hy) as Hcycle.
        rewrite ltb_irrefl in Hcycle. discriminate. }
      subst y. f_equal. apply IH; try assumption.
      now apply Permutation_cons_inv in Hperm.
Qed.

(** X9. The order of the file sections does not depend on the order in
    which the files came into the dictionary: two dictionaries with the
    same items (keys all different) sort to the same list. *)
Theorem sorted_items_canonical (d1 d2 : list (string * list Issue)) :
  NoDup (map fst d1) ->
  Permutation d1 d2 ->
  sorted_items d1 = sorted_items d2.
Proof.
  intros Hnd Hperm.
  assert (Hnd2 : NoDup (map fst d2)).
  { apply (Permutation_NoDup (l := map fst d1)); [|exact Hnd].
    now apply Permutation_map. }
  destruct (sorted_items_sorted_perm d1 Hnd) as [Hs1 Hp1].
  destruct (sorted_items_sorted_perm d2 Hnd2) as [Hs2 Hp2].
  apply sorted_unique; try assumption.
  now rewrite Hp1, Hperm, Hp2.
Qed.

Lemma sorted_items_canonical_witness :
  sorted_items [("src/b.rs", []); ("src/a.rs", [])]
  = sorted_items [("src/a.rs", []); ("src/b.rs", [])].
Proof.
  apply sorted_items_canonical.
  - repeat constructor; simpl; intuition discriminate.
  - apply perm_swap.
Defined.


Lemma stdout_of_print (l : log) (text : string) :
  stdout_of (l +++ [(Stdout, text)]) = stdout_of l +++ [text].
Proof. now rewrite stdout_of_app. Qed.

(** X23. What the auditor prints on standard output for a path that
    exists: when no file is found, the two opening lines and the notice
    that nothing was found; otherwise the two opening lines, the number of
    files, the notice of the analysis, the report of the issues of all the
    files, once, and the verdict: the number of HIGH issues when there is
    one, else the number of issues when there is one, else the line that
    the check passed.  Warnings for unreadable files go to standard error
    only. *)
Theorem auditor_output (w : World) (arg : option Path) (l : log) :
  path_exists w (check_path_of w arg) = true ->
  stdout_of (snd (main w arg l))
  = stdout_of l
    +++ [ "🔍 检查路径: " ++ path_str (check_path_of w arg);
          "📁 正在查找 Rust 文件..." ++ nl ]
    +++ match find_rust_files w (check_path_of w arg) with
        | [] => [ "⚠️  未找到任何 .rs 文件在: " ++ path_str (check_path_of w arg) ]
        | files =>
            [ "✅ 找到 " ++ str_nat (List.length files) ++ " 个 Rust 文件" ++ nl;
              "🔬 正在分析代码..." ++ nl;
              format_report (all_issues_under w (check_path_of w arg));
              verdict (all_issues_under w (check_path_of w arg)) ]
        end.
Proof.
  intros Hexists. unfold main, all_issues_under, verdict, with_severity.
  rewrite Hexists. cbn [negb]. rewrite !bind_print.
  destruct (find_rust_files w (check_path_of w arg)) as [|p rest] eqn:Hfiles.
  - rewrite bind_print. cbn [snd sys_exit].
    rewrite !stdout_of_print. now rewrite <- !app_assoc.
  - rewrite !bind_print.
    erewrite bind_returned by apply check_files_exact.
    rewrite bind_print. cbn [app].
    destruct (filter _ (flat_map (file_issues w) (p :: rest))) as [|h hs];
      [destruct (flat_map (file_issues w) (p :: rest))|];
      rewrite bind_print; cbn [snd sys_exit];
      rewrite !stdout_of_print, stdout_of_app, stdout_of_warnings,
        !stdout_of_print;
      rewrite ?app_nil_r, <- ?app_assoc; reflexivity.
Qed.

Lemma auditor_output_witness :
  stdout_of (snd (main (crate_world sloppy_lines) None []))
  = [ "🔍 检查路径: crate";
      "📁 正在查找 Rust 文件..." ++ nl;
      "✅ 找到 1 个 Rust 文件" ++ nl;
      "🔬 正在分析代码..." ++ nl;
      format_report (all_issues_under (crate_world sloppy_lines) crate);
      nl ++ "⚠️  发现 1 个问题，建议尽快修复。" ].
Proof.
  exact (auditor_output (crate_world sloppy_lines) None [] eq_refl).
Defined.

End AuditFacts.

(** ** More on the test wrapper *)

Module WrapperFacts.

Import Text Re Py RunRustTests Wrapper PyFacts RunRustTestsFacts.
Local Open Scope py_scope.

Lemma find_workspace_root_found (ex : Path -> bool) (anch : string)
  (ns : list string) (root : Path) :
  find_workspace_root ex anch ns = Some root ->
  exists up,
    (up <= List.length ns)%nat
    /\ root = mkPath anch (skipn up ns)
    /\ ex (child root "Cargo.toml") = true
    /\ (forall nearer, (nearer < up)%nat ->
          ex (child (mkPath anch (skipn nearer ns)) "Cargo.toml") = false).
Proof.
  induction ns as [|n rest IH]; simpl.
  - destruct (ex (child (mkPath anch []) "Cargo.toml")) eqn:E; [|discriminate].
    intros [= <-]. exists 0%nat.
    split; [lia | split; [reflexivity | split; [exact E | intros; lia]]].
  - destruct (ex (child (mkPath anch (n :: rest)) "Cargo.toml")) eqn:E.
    + intros [= <-]. exists 0%nat.
      split; [lia | split; [reflexivity | split; [exact E | intros; lia]]].
    + intros H. destruct (IH H) as (up & Hle & -> & Hex & Hnear).
      exists (S up).
      split; [lia | split; [reflexivity | split; [exact Hex|]]].
      intros [|nearer] Hlt; [exact E|]. apply Hnear. lia.
Qed.


(** X10. The walk towards the workspace stops at the nearest directory that
    holds [Cargo.toml]: the root [main] settles on is the given workspace
    path or one of its ancestors, it holds the manifest, and no directory
    between the given path and it does. *)
Theorem workspace_is_nearest_manifest (w : World) (args : Args) (root : Path) :
  workspace_of w args = Some root ->
  exists up,
    (up <= List.length (names (arg_workspace args)))%nat
    /\ root = ancestor (anchor (arg_workspace args))
               (names (arg_workspace args)) up
    /\ has_manifest w root = true
    /\ (forall nearer, (nearer < up)%nat ->
          has_manifest w
            (ancestor (anchor (arg_workspace args))
               (names (arg_workspace args)) nearer) = false).
Proof. apply find_workspace_root_found. Qed.

Lemma workspace_is_nearest_manifest_witness :
  exists up,
    (up <= 3)%nat
    /\ project = ancestor "/" ["tests"; "swap"; "sdk"] up
    /\ has_manifest sdk_world project = true.
Proof.
  destruct (workspace_is_nearest_manifest sdk_world
              (mkArgs None None None nested) project eq_refl)
    as (up & Hle & Hroot & Hex & _).
  exists up. repeat split; assumption.
Defined.



Lemma split_nonempty (sep : ascii) (s : string) : split sep s <> [].
Proof.
  destruct s as [|c s]; simpl; [discriminate|].
  destruct (Ascii.eqb c sep); [discriminate|].
  destruct (split sep s); discriminate.
Qed.

Lemma split_app (sep : ascii) (a b : string) :
  split sep (a ++ String sep b) = split sep a +++ split sep b.
Proof.
  induction a as [|c a IH]; simpl.
  - now rewrite Ascii.eqb_refl.
  - destruct (Ascii.eqb c sep); [now rewrite IH|].
    rewrite IH. pose proof (split_nonempty sep a) as Hne.
    destruct (split sep a) as [|h t]; [contradiction | reflexivity].
Qed.

Lemma parse_line_append (results : list TestResult) (line : string) :
  parse_line results line = results +++ parse_line [] line.
Proof.
  unfold parse_line. destruct (re_match test_pattern (strip line)).
  - reflexivity.
  - now rewrite app_nil_r.
Qed.

Lemma parse_loop (lines : list string) (results : list TestResult) :
  fold_left parse_line lines results
  = results +++ flat_map (parse_line []) lines.
Proof.
  revert results; induction lines as [|line rest IH]; intros results; simpl.
  - now rewrite app_nil_r.
  - rewrite IH, (parse_line_append results line). now rewrite <- app_assoc.
Qed.

Lemma parse_line_at_most_one (line : string) :
  (List.length (parse_line [] line) <= 1)%nat.
Proof.
  unfold parse_line. destruct (re_match test_pattern (strip line)); simpl; lia.
Qed.

(** X12. The parser works line by line: the results of two outputs joined
    by a newline are the results of the first followed by the results of the
    second; a line gives at most one result, so there are never more
    results than lines, and the empty output gives none. *)
Theorem parse_test_output_by_line (a b : string) :
  parse_test_output (a ++ nl ++ b) = parse_test_output a +++ parse_test_output b
  /\ (List.length (parse_test_output a)
      <= List.length (split newline a))%nat
  /\ parse_test_output "" = [].
Proof.
  unfold parse_test_output. split; [|split].
  - change (a ++ nl ++ b) with (a ++ String newline b).
    rewrite split_app, !parse_loop, flat_map_app. reflexivity.
  - rewrite parse_loop. simpl.
    induction (split newline a) as [|line rest IH]; simpl; [lia|].
    rewrite length_app. pose proof (parse_line_at_most_one line). lia.
  - reflexivity.
Qed.

Lemma status_of_cases (token : string) :
  status_of token = PASSED \/ status_of token = FAILED
  \/ status_of token = IGNORED.
Proof.
  unfold status_of.
  destruct (String.eqb token "ok"); [now left|].
  destruct (String.eqb token "FAILED"); [right; now left|].
  destruct (existsb _ _); [right; now right | right; now left].
Qed.

(** X13. A result parsed from the output of a batch run never has status
    TIMEOUT, never carries a diagnosis (error type and suggestion are empty,
    [fixable] is false), has duration 0, and has an error text only when its
    status is FAILED. *)
Theorem parsed_result_has_no_diagnosis (output : string) (r : TestResult) :
  In r (parse_test_output output) ->
  status r <> TIMEOUT
  /\ duration r = 0%Z
  /\ error_type r = ""
  /\ suggestion r = ""
  /\ fixable r = false
  /\ (status r <> FAILED -> error_message r = "").
Proof.
  unfold parse_test_output. rewrite parse_loop. simpl.
  intros Hin. apply in_flat_map in Hin as (line & _ & Hin).
  unfold parse_line in Hin.
  destruct (re_match test_pattern (strip line)) as [m|]; [|contradiction].
  destruct Hin as [<-|[]]. simpl.
  destruct (status_of_cases (group_or_empty 2 m)) as [H|[H|H]]; rewrite H;
    simpl; repeat split; congruence.
Qed.

Lemma parsed_result_has_no_diagnosis_witness :
  status (mkTestResult "net::connect" FAILED 0 "" "" "" false) <> TIMEOUT.
Proof.
  apply (parsed_result_has_no_diagnosis "test net::connect ...FAILED").
  vm_compute. left. reflexivity.
Defined.

Lemma take_length (n : nat) (s : string) : (length (take n s) <= n)%nat.
Proof.
  revert s; induction n as [|n IH]; intros s; [simpl; lia|].
  destruct s as [|c s]; simpl; [lia|]. specialize (IH s). lia.
Qed.

Lemma take_prefix (n : nat) (s : string) : startswith (take n s) s = true.
Proof.
  revert s; induction n as [|n IH]; intros s; [reflexivity|].
  destruct s as [|c s]; simpl; [reflexivity|].
  now rewrite Ascii.eqb_refl, IH.
Qed.

(** X14. [run_single_test] never raises, whatever the harness does: it
    prints its two lines and returns a result for the test asked for, PASSED
    exactly when the exit code [run_command] returned is 0 and FAILED
    otherwise.  A passed result carries no error text and no diagnosis; a
    failed one carries an error text that is a prefix of the captured
    stderr, at most 500 characters long, and the diagnosis of the whole
    stderr. *)
Theorem single_test_result (w : World) (name : string)
  (package features : option string) (root : option Path) (l : log) :
  exists r code out err,
    run_single_test w name package features root l
    = (Returned r, l +++ banner name package features)
    /\ fst (run_command w (single_test_command name package features)
              (Some (match root with Some p => p | None => cwd w end))
              default_timeout l)
       = Returned (code, out, err)
    /\ test_name r = name
    /\ (code = 0%Z -> r = mkTestResult name PASSED 0 "" "" "" false)
    /\ (code <> 0%Z ->
        status r = FAILED
        /\ startswith (error_message r) err = true
        /\ (length (error_message r) <= 500)%nat
        /\ mkDiagnosis (error_type r) (suggestion r) (fixable r)
           = analyze_failure err name).
Proof.
  set (dir := match root with Some p => p | None => cwd w end).
  assert (Hrun : run_single_test w name package features root l
                 = run_single_test w name package features (Some dir) l).
  { unfold dir. now destruct root. }
  rewrite Hrun, run_single_test_returns, run_command_returns. simpl fst.
  destruct (command_result w (single_test_command name package features)
              (Some dir) default_timeout) as [[code out] err].
  exists (result_of name (code, out, err)), code, out, err.
  split; [reflexivity | split; [reflexivity|]].
  unfold result_of.
  destruct (Z.eqb_spec code 0) as [->|Hne];
    cbn [test_name status error_message error_type suggestion fixable].
  - split; [reflexivity | split; [reflexivity | congruence]].
  - split; [reflexivity | split; [congruence|]]. intros _.
    split; [reflexivity|]. split; [apply take_prefix|].
    split; [apply take_length|]. now destruct (analyze_failure err name).
Qed.

End WrapperFacts.

(** ** The matcher *)

Module ReFacts.

Import Text Re ReSpec.

Lemma run_rep (greedy : bool) (lo : nat) (hi : option nat) (r : regex)
  (k : cont) (b : list ascii) (a : string) (cs : caps) :
  run (Rep greedy lo hi r) k b a cs
  = rep_loop (run r) greedy lo hi k (length a) 0 b a cs.
Proof. reflexivity. Qed.

Lemma rep_loop_O (body : cont -> cont) (greedy : bool) (lo : nat)
  (hi : option nat) (k : cont) (n : nat) (b : list ascii) (a : string)
  (cs : caps) :
  rep_loop body greedy lo hi k 0 n b a cs
  = if (lo <=? n)%nat then k b a cs else None.
Proof. reflexivity. Qed.

Lemma rep_loop_S (body : cont -> cont) (greedy : bool) (lo : nat)
  (hi : option nat) (k : cont) (fuel n : nat) (b : list ascii) (a : string)
  (cs : caps) :
  rep_loop body greedy lo hi k (S fuel) n b a cs
  = if greedy then
      match (if below n hi then
               body (fun b' a' cs' =>
                       if (length a' <? length a)%nat
                       then rep_loop body greedy lo hi k fuel (S n) b' a' cs'
                       else None) b a cs
             else None) with
      | Some res => Some res
      | None => if (lo <=? n)%nat then k b a cs else None
      end
    else
      match (if (lo <=? n)%nat then k b a cs else None) with
      | Some res => Some res
      | None =>
          if below n hi then
            body (fun b' a' cs' =>
                    if (length a' <? length a)%nat
                    then rep_loop body greedy lo hi k fuel (S n) b' a' cs'
                    else None) b a cs
          else None
      end.
Proof. reflexivity. Qed.

Lemma rep_loop_sound (body : cont -> cont) (r : regex) (greedy : bool)
  (lo : nat) (hi : option nat) (k : cont) (res : caps) :
  (forall k' b a cs,
     body k' b a cs = Some res ->
     exists b' a' cs', matches r b a cs b' a' cs' /\ k' b' a' cs' = Some res) ->
  forall fuel n b a cs,
    rep_loop body greedy lo hi k fuel n b a cs = Some res ->
    exists b' a' cs',
      matches (Rep greedy (lo - n) (option_map (fun h => h - n)%nat hi) r)
        b a cs b' a' cs'
      /\ k b' a' cs' = Some res.
Proof.
  intros Hbody.
  assert (Hstop : forall n b a cs,
            (if (lo <=? n)%nat then k b a cs else None) = Some res ->
            exists b' a' cs',
              matches (Rep greedy (lo - n) (option_map (fun h => h - n)%nat hi) r)
                b a cs b' a' cs'
              /\ k b' a' cs' = Some res).
  { intros n b a cs H. destruct (Nat.leb_spec lo n) as [Hle|]; [|discriminate].
    exists b, a, cs. split; [|exact H].
    replace (lo - n)%nat with 0%nat by lia. constructor. }
  induction fuel as [|fuel IH]; intros n b a cs H.
  - rewrite rep_loop_O in H. now apply Hstop.
  - assert (Hmore :
      (if below n hi then
         body (fun b' a' cs' =>
                 if (length a' <? length a)%nat
                 then rep_loop body greedy lo hi k fuel (S n) b' a' cs'
                 else None) b a cs
       else None) = Some res ->
      exists b' a' cs',
        matches (Rep greedy (lo - n) (option_map (fun h => h - n)%nat hi) r)
          b a cs b' a' cs'
        /\ k b' a' cs' = Some res).
    { intros Hm. destruct (below n hi) eqn:Hbelow; [|discriminate].
      apply Hbody in Hm as (b1 & a1 & cs1 & Hone & Hrest).
      destruct (Nat.ltb_spec (length a1) (length a)) as [Hlt|]; [|discriminate].
      apply IH in Hrest as (b2 & a2 & cs2 & Hmany & Hk).
      exists b2, a2, cs2. split; [|exact Hk].
      apply (m_rep_more _ _ _ _ _ _ _ b1 a1 cs1); try assumption.
      - destruct hi as [h|]; [|reflexivity]. simpl in *.
        apply Nat.ltb_lt in Hbelow. apply Nat.ltb_lt. lia.
      - replace (Nat.pred (lo - n)) with (lo - S n)%nat by lia.
        replace (option_map Nat.pred (option_map (fun h => (h - n)%nat) hi))
          with (option_map (fun h => (h - S n)%nat) hi); [exact Hmany|].
        destruct hi as [h|]; [|reflexivity]. simpl. f_equal. lia. }
    rewrite rep_loop_S in H. destruct greedy.
    + destruct (if below n hi then
                  body (fun b' a' cs' =>
                          if (length a' <? length a)%nat
                          then rep_loop body true lo hi k fuel (S n) b' a' cs'
                          else None) b a cs
                else None) as [res'|] eqn:E.
      * apply Hmore. exact H.
      * now apply Hstop.
    + destruct (if (lo <=? n)%nat then k b a cs else None) as [res'|] eqn:E.
      * apply Hstop. now rewrite E.
      * now apply Hmore.
Qed.

(** A successful run reaches its continuation at a position the pattern
    leads to. *)
Lemma run_sound (r : regex) :
  forall (k : cont) (b : list ascii) (a : string) (cs res : caps),
    run r k b a cs = Some res ->
    exists b' a' cs', matches r b a cs b' a' cs' /\ k b' a' cs' = Some res.
Proof.
  induction r as [|p|r1 IH1 r2 IH2|r1 IH1 r2 IH2|greedy lo hi r IH|i r IH|r IH| | |];
    intros k b a cs res H.
  - exists b, a, cs. split; [constructor | exact H].
  - simpl in H. destruct a as [|c a]; [discriminate|].
    destruct (p c) eqn:Hp; [|discriminate].
    exists (c :: b), a, cs. split; [now constructor | exact H].
  - simpl in H. apply IH1 in H as (b1 & a1 & cs1 & H1 & H).
    apply IH2 in H as (b2 & a2 & cs2 & H2 & H).
    exists b2, a2, cs2. split; [now apply (m_seq _ _ _ _ _ b1 a1 cs1) | exact H].
  - simpl in H. destruct (run r1 k b a cs) as [res'|] eqn:E.
    + injection H as <-. apply IH1 in E as (b' & a' & cs' & H1 & H).
      exists b', a', cs'. split; [now apply m_alt_left | exact H].
    + apply IH2 in H as (b' & a' & cs' & H2 & H).
      exists b', a', cs'. split; [now apply m_alt_right | exact H].
  - rewrite run_rep in H.
    apply (rep_loop_sound (run r) r) in H; [|intros k' b0 a0 cs0; apply IH].
    destruct H as (b' & a' & cs' & Hm & Hk).
    exists b', a', cs'. split; [|exact Hk].
    rewrite Nat.sub_0_r in Hm.
    replace (option_map (fun h => (h - 0)%nat) hi) with hi in Hm; [exact Hm|].
    destruct hi as [h|]; [|reflexivity]. simpl. now rewrite Nat.sub_0_r.
  - simpl in H. apply IH in H as (b' & a' & cs' & Hm & H).
    eexists b', a', _. split; [apply m_group; exact Hm | exact H].
  - simpl in H.
    destruct (run r (fun _ _ cs' => Some cs') b a cs) eqn:E; [discriminate|].
    exists b, a, cs. split; [now constructor | exact H].
  - simpl in H.
    destruct (xorb (prev_is_word b) (next_is_word a)) eqn:E; [|discriminate].
    exists b, a, cs. split; [now constructor | exact H].
  - simpl in H. destruct b; [|discriminate].
    exists [], a, cs. split; [constructor | exact H].
  - simpl in H. destruct a as [|c [|c' a]]; try discriminate.
    + exists b, "", cs. split; [constructor | exact H].
    + destruct (Ascii.eqb_spec c newline) as [->|]; [|discriminate].
      exists b, nl, cs. split; [constructor | exact H].
Qed.


Lemma append_assoc (x y z : string) : (x ++ y) ++ z = x ++ y ++ z.
Proof. induction x as [|c x IH]; simpl; [reflexivity | now rewrite IH]. Qed.

Lemma append_empty_r (x : string) : x ++ "" = x.
Proof. induction x as [|c x IH]; simpl; [reflexivity | now rewrite IH]. Qed.

Lemma length_append (x y : string) :
  length (x ++ y) = (length x + length y)%nat.
Proof. induction x as [|c x IH]; simpl; [reflexivity | now rewrite IH]. Qed.

Lemma rev_chars_append (x y : string) :
  rev_chars (x ++ y) = rev_chars y +++ rev_chars x.
Proof.
  induction x as [|c x IH]; simpl.
  - now rewrite app_nil_r.
  - now rewrite IH, app_assoc.
Qed.

Lemma take_consumed (x rest : string) :
  take (length (x ++ rest) - length rest) (x ++ rest) = x.
Proof.
  rewrite length_append.
  replace (length x + length rest - length rest)%nat with (length x) by lia.
  induction x as [|c x IH]; simpl.
  - now destruct rest.
  - now rewrite IH.
Qed.

(** A pattern takes the matcher forward over a part of the text. *)
Lemma matches_consumes (r : regex) (b : list ascii) (a : string) (cs : caps)
  (b' : list ascii) (a' : string) (cs' : caps) :
  matches r b a cs b' a' cs' ->
  exists x, a = x ++ a' /\ b' = rev_chars x +++ b.
Proof.
  induction 1 as
    [ b a cs | p c b a cs Hp
    | r1 r2 b a cs b1 a1 cs1 b2 a2 cs2 _ IH1 _ IH2
    | r1 r2 b a cs b' a' cs' _ IH | r1 r2 b a cs b' a' cs' _ IH
    | greedy hi r b a cs
    | greedy lo hi r b a cs b1 a1 cs1 b2 a2 cs2 _ _ IH1 _ _ IH2
    | i r b a cs b' a' cs' _ IH
    | r b a cs _ | b a cs _ | a cs | b cs | b cs ];
    try (exists ""; split; reflexivity); try assumption.
  - exists (String c ""). split; reflexivity.
  - destruct IH1 as (x1 & -> & ->). destruct IH2 as (x2 & -> & ->).
    exists (x1 ++ x2). split.
    + now rewrite append_assoc.
    + now rewrite rev_chars_append, app_assoc.
  - destruct IH1 as (x1 & -> & ->). destruct IH2 as (x2 & -> & ->).
    exists (x1 ++ x2). split.
    + now rewrite append_assoc.
    + now rewrite rev_chars_append, app_assoc.
Qed.

Lemma matches_seq (r1 r2 : regex) (b : list ascii) (a : string) (cs : caps)
  (b2 : list ascii) (a2 : string) (cs2 : caps) :
  matches (Seq r1 r2) b a cs b2 a2 cs2 ->
  exists b1 a1 cs1,
    matches r1 b a cs b1 a1 cs1 /\ matches r2 b1 a1 cs1 b2 a2 cs2.
Proof. intros H. inversion H; subst. now exists b1, a1, cs1. Qed.

Lemma matches_chr (p : ascii -> bool) (b : list ascii) (a : string) (cs : caps)
  (b' : list ascii) (a' : string) (cs' : caps) :
  matches (Chr p) b a cs b' a' cs' ->
  exists c, a = String c a' /\ p c = true /\ cs' = cs /\ b' = c :: b.
Proof. intros H. inversion H; subst. now exists c. Qed.

Lemma matches_group (i : nat) (r : regex) (b : list ascii) (a : string)
  (cs : caps) (b' : list ascii) (a' : string) (cs' : caps) :
  matches (Group i r) b a cs b' a' cs' ->
  exists cs1,
    matches r b a cs b' a' cs1
    /\ cs' = (i, take (length a - length a') a) :: cs1.
Proof.
  intros H.
  inversion H as [| | | | | | |i0 r0 b0 a0 cs0 b1 a1 cs1 Hin| | | | |]; subst.
  now exists cs1.
Qed.

(** A literal takes the matcher over exactly its text. *)
Lemma matches_lit (s : string) :
  forall (b : list ascii) (a : string) (cs : caps)
         (b' : list ascii) (a' : string) (cs' : caps),
    matches (lit s) b a cs b' a' cs' ->
    a = s ++ a' /\ cs' = cs /\ b' = rev_chars s +++ b.
Proof.
  induction s as [|c s IH]; intros b a cs b' a' cs' H.
  - inversion H; subst. now repeat split.
  - destruct s as [|c2 s].
    + apply matches_chr in H as (c' & -> & Hc & -> & ->).
      apply Ascii.eqb_eq in Hc. subst c'. now repeat split.
    + change (lit (String c (String c2 s)))
        with (Seq (chr c) (lit (String c2 s))) in H.
      apply matches_seq in H as (b1 & a1 & cs1 & H1 & H2).
      apply matches_chr in H1 as (c' & -> & Hc & -> & ->).
      apply Ascii.eqb_eq in Hc. subst c'.
      apply IH in H2 as (-> & -> & ->).
      repeat split. cbn [rev_chars]. rewrite <- !app_assoc. reflexivity.
Qed.

(** A repetition of a class takes the matcher over characters of the class,
    at least as many as its lower bound. *)
Lemma matches_rep_class (p : ascii -> bool) (r : regex) (b : list ascii)
  (a : string) (cs : caps) (b' : list ascii) (a' : string) (cs' : caps) :
  matches r b a cs b' a' cs' ->
  forall greedy lo hi,
    r = Rep greedy lo hi (Chr p) ->
    exists x,
      a = x ++ a' /\ cs' = cs /\ b' = rev_chars x +++ b
      /\ all_in p x = true /\ (lo <= length x)%nat.
Proof.
  induction 1 as
    [ | | | | | greedy0 hi0 r0 b a cs
    | greedy0 lo0 hi0 r0 b a cs b1 a1 cs1 b2 a2 cs2 _ Hone _ _ _ IH
    | | | | | | ];
    intros greedy lo hi Hr; try discriminate.
  - injection Hr as Hg Hlo Hhi Hr0. subst. exists "". repeat split. simpl. lia.
  - injection Hr as Hg Hlo Hhi Hr0. subst.
    apply matches_chr in Hone as (c & -> & Hc & -> & ->).
    destruct (IH greedy (Nat.pred lo) (option_map Nat.pred hi) eq_refl)
      as (x & -> & -> & -> & Hall & Hlen).
    exists (String c x). repeat split.
    + simpl. now rewrite <- app_assoc.
    + simpl. now rewrite Hc, Hall.
    + simpl. lia.
Qed.

Lemma matches_opt (greedy : bool) (r : regex) (b : list ascii) (a : string)
  (cs : caps) (b' : list ascii) (a' : string) (cs' : caps) :
  matches (Rep greedy 0 (Some 1) r) b a cs b' a' cs' ->
  (b' = b /\ a' = a /\ cs' = cs) \/ matches r b a cs b' a' cs'.
Proof.
  intros H.
  inversion H as [| | | | | |g lo hi r0 b0 a0 cs0 b1 a1 cs1 b2 a2 cs2 _ Hone _ Hrest
                 | | | | | |]; subst.
  - now left.
  - right. simpl in Hrest.
    inversion Hrest as [| | | | | |g lo hi r0 b0 a0 cs0 b3 a3 cs3 b4 a4 cs4 Hbelow
                       | | | | | |]; subst.
    + exact Hone.
    + discriminate Hbelow.
Qed.

Lemma matches_eol (b : list ascii) (a : string) (cs : caps)
  (b' : list ascii) (a' : string) (cs' : caps) :
  matches Eol b a cs b' a' cs' ->
  a' = a /\ cs' = cs /\ (a = "" \/ a = nl).
Proof. intros H. inversion H; subst; auto. Qed.

Lemma matches_bol (b : list ascii) (a : string) (cs : caps)
  (b' : list ascii) (a' : string) (cs' : caps) :
  matches Bol b a cs b' a' cs' -> b = [] /\ b' = [] /\ a' = a /\ cs' = cs.
Proof. intros H. inversion H; subst; auto. Qed.

Lemma nonempty_of_length (x : string) : (1 <= length x)%nat -> x <> "".
Proof. destruct x; simpl; [lia | discriminate]. Qed.

End ReFacts.

(** ** The result lines the parser recognises *)

Module ParserFacts.

Import Text Re ReSpec ReFacts Py RunRustTests Wrapper WrapperFacts Parser.

(** The form of a text the pattern of the parser matches, and what its
    groups hold. *)
Lemma test_pattern_form (s : string) (m : caps) :
  re_match test_pattern s = Some m ->
  exists ws1 name ws2 token tail,
    s = "test" ++ ws1 ++ name ++ ws2 ++ "..." ++ token ++ tail
    /\ all_in is_space ws1 = true /\ ws1 <> ""
    /\ all_in (fun c => negb (Ascii.eqb c newline)) name = true /\ name <> ""
    /\ all_in is_space ws2 = true /\ ws2 <> ""
    /\ all_in is_word token = true /\ token <> ""
    /\ (tail = "" \/ exists c t, tail = String c t /\ is_space c = true)
    /\ group 1 m = Some name /\ group 2 m = Some token.
Proof.
  unfold re_match. intros H.
  apply run_sound in H as (b' & a' & cs' & Hm & Hacc).
  injection Hacc as ->.
  unfold test_pattern in Hm. cbn [seqs] in Hm.
  apply matches_seq in Hm as (b1 & a1 & cs1 & Hbol & Hm).
  apply matches_bol in Hbol as (_ & -> & -> & ->).
  apply matches_seq in Hm as (b2 & a2 & cs2 & Hlit & Hm).
  apply matches_lit in Hlit as (-> & -> & ->).
  apply matches_seq in Hm as (b3 & a3 & cs3 & Hws1 & Hm).
  apply (matches_rep_class is_space) with (greedy := true) (lo := 1%nat)
    (hi := None) in Hws1; [|reflexivity].
  destruct Hws1 as (ws1 & -> & -> & -> & Hall1 & Hlen1).
  apply matches_seq in Hm as (b4 & a4 & cs4 & Hname & Hm).
  apply matches_group in Hname as (cs5 & Hname & ->).
  apply (matches_rep_class (fun c => negb (Ascii.eqb c newline)))
    with (greedy := false) (lo := 1%nat) (hi := None) in Hname; [|reflexivity].
  destruct Hname as (name & -> & -> & -> & Hall2 & Hlen2).
  rewrite take_consumed in Hm.
  apply matches_seq in Hm as (b5 & a5 & cs6 & Hws2 & Hm).
  apply (matches_rep_class is_space) with (greedy := true) (lo := 1%nat)
    (hi := None) in Hws2; [|reflexivity].
  destruct Hws2 as (ws2 & -> & -> & -> & Hall3 & Hlen3).
  apply matches_seq in Hm as (b6 & a6 & cs7 & Hdots & Hm).
  apply matches_lit in Hdots as (-> & -> & ->).
  apply matches_seq in Hm as (b7 & a7 & cs8 & Htoken & Hm).
  apply matches_group in Htoken as (cs9 & Htoken & ->).
  apply (matches_rep_class is_word) with (greedy := true) (lo := 1%nat)
    (hi := None) in Htoken; [|reflexivity].
  destruct Htoken as (token & -> & -> & -> & Hall4 & Hlen4).
  rewrite take_consumed in Hm.
  apply matches_seq in Hm as (b8 & a8 & cs10 & Hopt & Heol).
  apply matches_eol in Heol as (-> & -> & Hend).
  exists ws1, name, ws2, token, a7.
  split; [reflexivity|].
  repeat (split; [first [assumption | now apply nonempty_of_length]|]).
  apply matches_opt in Hopt as [(_ & -> & ->)|Hopt].
  - split; [|split; reflexivity].
    destruct Hend as [->| ->]; [now left|].
    right. exists newline, "". split; reflexivity.
  - apply matches_seq in Hopt as (b9 & a9 & cs11 & Hws3 & Hrest).
    apply (matches_rep_class is_space) with (greedy := true) (lo := 1%nat)
      (hi := None) in Hws3; [|reflexivity].
    destruct Hws3 as (ws3 & -> & -> & -> & Hall5 & Hlen5).
    apply matches_group in Hrest as (cs12 & Hrest & ->).
    apply (matches_rep_class (fun c => negb (Ascii.eqb c newline)))
      with (greedy := true) (lo := 1%nat) (hi := None) in Hrest; [|reflexivity].
    destruct Hrest as (rest & _ & -> & _ & _ & _).
    split; [|split; reflexivity].
    right. destruct ws3 as [|c ws3]; [simpl in Hlen5; lia|].
    exists c, (ws3 ++ a9). split; [reflexivity|].
    simpl in Hall5. now apply andb_true_iff in Hall5 as [Hc _].
Qed.


Lemma not_should_panic (token : string) :
  all_in is_word token = true -> token <> "should panic".
Proof. intros H ->. discriminate H. Qed.

Lemma status_of_token (token : string) :
  all_in is_word token = true ->
  (token = "ok" /\ status_of token = PASSED)
  \/ (token = "ignored" /\ status_of token = IGNORED)
  \/ (token <> "ok" /\ token <> "ignored" /\ status_of token = FAILED).
Proof.
  intros Hword. unfold status_of.
  destruct (String.eqb_spec token "ok") as [->|Hok]; [now left|].
  destruct (String.eqb_spec token "FAILED") as [->|Hfailed].
  - right. right. repeat split; discriminate.
  - simpl. destruct (String.eqb_spec token "ignored") as [->|Hign].
    + right. now left.
    + destruct (String.eqb_spec token "should panic") as [->|_].
      * discriminate Hword.
      * right. right. now repeat split.
Qed.

Lemma parsed_result_form (output : string) (r : TestResult) :
  In r (parse_test_output output) ->
  exists line ws1 name ws2 token tail,
    In line (split newline output)
    /\ strip line = "test" ++ ws1 ++ name ++ ws2 ++ "..." ++ token ++ tail
    /\ all_in is_word token = true /\ token <> "".
Proof.
  unfold parse_test_output. rewrite parse_loop. simpl.
  intros Hin. apply in_flat_map in Hin as (line & Hline & Hin).
  unfold parse_line in Hin.
  destruct (re_match test_pattern (strip line)) as [m|] eqn:Hm; [|contradiction].
  apply test_pattern_form in Hm
    as (ws1 & name & ws2 & token & tail & Hform & _ & _ & _ & _
        & _ & _ & Hword & Htok & _).
  now exists line, ws1, name, ws2, token, tail.
Qed.

(** X15. Every result of the parser comes from a line of the output whose
    stripped text is the word [test], blanks, a name, blanks, three dots and
    directly after them a token of word characters, followed by nothing or
    by a blank.  The result has that name, not empty, and its status is
    PASSED for the token [ok], IGNORED for the token [ignored] and FAILED
    for every other token: the entry [should panic] of the code can never
    apply, since a token holds no blank. *)
Theorem parsed_result_comes_from_result_line (output : string) (r : TestResult) :
  In r (parse_test_output output) ->
  exists line ws1 name ws2 token tail,
    In line (split newline output)
    /\ strip line = "test" ++ ws1 ++ name ++ ws2 ++ "..." ++ token ++ tail
    /\ all_in is_space ws1 = true /\ ws1 <> ""
    /\ all_in is_space ws2 = true /\ ws2 <> ""
    /\ all_in is_word token = true /\ token <> ""
    /\ (tail = "" \/ exists c t, tail = String c t /\ is_space c = true)
    /\ name <> "" /\ test_name r = name
    /\ ((token = "ok" /\ status r = PASSED)
        \/ (token = "ignored" /\ status r = IGNORED)
        \/ (token <> "ok" /\ token <> "ignored" /\ status r = FAILED)).
Proof.
  unfold parse_test_output. rewrite parse_loop. simpl.
  intros Hin. apply in_flat_map in Hin as (line & Hline & Hin).
  unfold parse_line in Hin.
  destruct (re_match test_pattern (strip line)) as [m|] eqn:Hm; [|contradiction].
  destruct Hin as [<-|[]].
  apply test_pattern_form in Hm
    as (ws1 & name & ws2 & token & tail & Hform & Hs1 & Hn1 & _ & Hname
        & Hs2 & Hn2 & Hword & Htok & Htail & Hg1 & Hg2).
  exists line, ws1, name, ws2, token, tail.
  unfold group_or_empty. rewrite Hg1, Hg2.
  cbn [test_name status].
  repeat (split; [assumption|]). split; [reflexivity|].
  now apply status_of_token.
Qed.

Lemma parsed_result_witness :
  exists line ws1 name ws2 token tail,
    In line (split newline ("running 1 test" ++ nl ++ "test net::connect ...ignored"))
    /\ strip line = "test" ++ ws1 ++ name ++ ws2 ++ "..." ++ token ++ tail
    /\ name = "net::connect".
Proof.
  destruct (parsed_result_comes_from_result_line
              ("running 1 test" ++ nl ++ "test net::connect ...ignored")
              (mkTestResult "net::connect" IGNORED 0 "" "" "" false))
    as (line & ws1 & name & ws2 & token & tail & Hin & Hform & _ & _ & _ & _
        & _ & _ & _ & _ & Hname & _).
  - vm_compute. left. reflexivity.
  - exists line, ws1, name, ws2, token, tail.
    split; [exact Hin | split; [exact Hform | now symmetry]].
Defined.


Lemma startswith_app (p x y : string) :
  startswith p x = true -> startswith p (x ++ y) = true.
Proof.
  revert x; induction p as [|c p IH]; intros x H; [reflexivity|].
  destruct x as [|d x]; [discriminate|]. simpl in *.
  apply andb_true_iff in H as [Hc Hp]. now rewrite Hc, IH.
Qed.

Lemma dots_word_here_app (x y : string) :
  dots_word_here x = true -> dots_word_here (x ++ y) = true.
Proof.
  unfold dots_word_here. intros H.
  apply andb_true_iff in H as [Hdots Hword].
  rewrite (startswith_app _ _ y Hdots).
  destruct x as [|c1 [|c2 [|c3 [|c4 x]]]]; try discriminate. exact Hword.
Qed.

Lemma dots_then_word_cons (c : ascii) (s : string) :
  dots_then_word (String c s) = dots_word_here (String c s) || dots_then_word s.
Proof. reflexivity. Qed.

Lemma dots_then_word_app_l (x y : string) :
  dots_then_word x = true -> dots_then_word (x ++ y) = true.
Proof.
  induction x as [|c x IH]; intros H.
  - discriminate H.
  - rewrite dots_then_word_cons in H.
    change (String c x ++ y) with (String c (x ++ y)).
    rewrite dots_then_word_cons.
    apply orb_true_iff in H as [H|H].
    + change (String c (x ++ y)) with (String c x ++ y).
      now rewrite (dots_word_here_app _ y H).
    + rewrite (IH H). apply orb_true_r.
Qed.

Lemma dots_then_word_app_r (x y : string) :
  dots_then_word y = true -> dots_then_word (x ++ y) = true.
Proof.
  intros H. induction x as [|c x IH]; [exact H|].
  change (String c x ++ y) with (String c (x ++ y)).
  rewrite dots_then_word_cons, IH. apply orb_true_r.
Qed.

Lemma lstrip_suffix (s : string) : exists ws, s = ws ++ lstrip s.
Proof.
  induction s as [|c s [ws IH]]; [now exists ""|]. simpl.
  destruct (is_space c).
  - exists (String c ws). simpl. now rewrite <- IH.
  - now exists "".
Qed.

Lemma rstrip_prefix (s : string) : exists ws, s = rstrip s ++ ws.
Proof.
  induction s as [|c s [ws IH]]; [now exists ""|]. simpl.
  destruct (rstrip s) as [|d t] eqn:E.
  - destruct (is_space c).
    + exists (String c s). reflexivity.
    + exists s. reflexivity.
  - exists ws. simpl. f_equal. exact IH.
Qed.

Lemma split_head_prefix (sep : ascii) (s : string) :
  forall h t, split sep s = h :: t -> exists post, s = h ++ post.
Proof.
  induction s as [|c s IH]; intros h t E; simpl in E.
  - injection E as <- <-. now exists "".
  - destruct (Ascii.eqb c sep).
    + injection E as <- <-. now exists (String c s).
    + pose proof (split_nonempty sep s) as Hne.
      destruct (split sep s) as [|h' t'] eqn:E'; [contradiction|].
      injection E as <- <-.
      destruct (IH h' t' eq_refl) as (post & Hs).
      exists post. simpl. now f_equal.
Qed.

Lemma split_In (sep : ascii) (s : string) :
  forall line,
    In line (split sep s) -> exists pre post, s = pre ++ line ++ post.
Proof.
  induction s as [|c s IH]; intros line Hin; simpl in Hin.
  - destruct Hin as [<-|[]]. now exists "", "".
  - destruct (Ascii.eqb c sep).
    + destruct Hin as [<-|Hin].
      * now exists "", (String c s).
      * destruct (IH line Hin) as (pre & post & Hs).
        exists (String c pre), post. simpl. now f_equal.
    + destruct (split sep s) as [|h t] eqn:E.
      * destruct Hin as [<-|[]]. exists "", s. reflexivity.
      * destruct Hin as [<-|Hin].
        -- destruct (split_head_prefix sep s h t E) as (post & Hs).
           exists "", post. simpl. now f_equal.
        -- destruct (IH line (or_intror Hin)) as (pre & post & Hs).
           exists (String c pre), post. simpl. now f_equal.
Qed.

Lemma dots_then_word_in_part (pre part post : string) :
  dots_then_word part = true -> dots_then_word (pre ++ part ++ post) = true.
Proof.
  intros H. apply dots_then_word_app_r. now apply dots_then_word_app_l.
Qed.

Lemma dots_then_word_strip (line : string) :
  dots_then_word (strip line) = true -> dots_then_word line = true.
Proof.
  unfold strip. intros H.
  destruct (lstrip_suffix line) as (ws & Hl).
  destruct (rstrip_prefix (lstrip line)) as (ws' & Hr).
  rewrite Hl, Hr. apply dots_then_word_app_r. now apply dots_then_word_app_l.
Qed.

Lemma no_result_unless_glued (output : string) :
  dots_then_word output = false -> parse_test_output output = [].
Proof.
  intros Hnone.
  destruct (parse_test_output output) as [|r rest] eqn:E; [reflexivity|].
  exfalso.
  destruct (parsed_result_form output r)
    as (line & ws1 & name & ws2 & token & tail & Hin & Hform & Hword & Htok).
  { rewrite E. now left. }
  assert (Hline : dots_then_word (strip line) = true).
  { rewrite Hform.
    apply (dots_then_word_app_r "test"), dots_then_word_app_r,
      dots_then_word_app_r, dots_then_word_app_r.
    destruct token as [|c t]; [contradiction|].
    simpl in Hword. apply andb_true_iff in Hword as [Hc _].
    cbn. now rewrite Hc. }
  apply dots_then_word_strip in Hline.
  destruct (split_In newline output line Hin) as (pre & post & Hout).
  rewrite Hout, (dots_then_word_in_part pre line post Hline) in Hnone.
  discriminate.
Qed.

(** X16. An output in which three dots are nowhere directly followed by a
    word character yields no result at all. *)
Theorem no_result_without_glued_status (output : string) :
  dots_then_word output = false -> parse_test_output output = [].
Proof. apply no_result_unless_glued. Qed.

Lemma no_result_without_glued_status_witness :
  parse_test_output
    ("running 2 tests" ++ nl ++ "test suite::case1 ... ok" ++ nl
     ++ "test suite::case2 ... FAILED") = [].
Proof. apply no_result_without_glued_status. reflexivity. Defined.

Lemma dots_then_word_dot_free (x y : string) :
  dot_free x = true -> dots_then_word (x ++ y) = dots_then_word y.
Proof.
  induction x as [|c x IH]; intros H; [reflexivity|].
  unfold dot_free in H. simpl in H. apply andb_true_iff in H as [Hc Hx].
  change (String c x ++ y) with (String c (x ++ y)).
  rewrite dots_then_word_cons, (IH Hx).
  unfold dots_word_here. cbn [startswith].
  apply negb_true_iff in Hc. rewrite Ascii.eqb_sym in Hc. now rewrite Hc.
Qed.

(** X17. The result line as the harness prints it, with a blank between the
    dots and the status, is never recognised: for every test name and every
    status that hold no dot, the line [test <name> ... <status>] yields no
    result. *)
Theorem spaced_result_lines_are_dropped (name token : string) :
  dot_free name = true ->
  dot_free token = true ->
  parse_test_output ("test " ++ name ++ " ... " ++ token) = [].
Proof.
  intros Hname Htoken. apply no_result_unless_glued.
  rewrite (dots_then_word_dot_free "test " _ eq_refl).
  rewrite (dots_then_word_dot_free name _ Hname).
  cbn.
  rewrite <- (append_empty_r token).
  now rewrite (dots_then_word_dot_free token "" Htoken).
Qed.

Lemma spaced_result_lines_witness :
  parse_test_output ("test " ++ "swap::tests::slippage" ++ " ... " ++ "FAILED") = [].
Proof. apply spaced_result_lines_are_dropped; reflexivity. Defined.

End ParserFacts.

(** ** The rules of the catalog *)

Module RuleFacts.

Import Text Re ReSpec ReFacts Py CheckErrorTolerance Audit Rules.
Import CheckErrorToleranceFacts AuditFacts.

Lemma run_lit_hit (s : string) :
  forall (k : cont) (b : list ascii) (a' : string) (cs : caps),
    run (lit s) k b (s ++ a') cs = k (rev_chars s +++ b) a' cs.
Proof.
  induction s as [|c s IH]; intros k b a' cs; [reflexivity|].
  destruct s as [|c2 s].
  - simpl. now rewrite Ascii.eqb_refl.
  - change (lit (String c (String c2 s)))
      with (Seq (chr c) (lit (String c2 s))).
    change (run (Seq (chr c) (lit (String c2 s))) k b
              (String c (String c2 s) ++ a') cs)
      with (if Ascii.eqb c c
            then run (lit (String c2 s)) k (c :: b) (String c2 s ++ a') cs
            else None).
    rewrite Ascii.eqb_refl, IH. cbn [rev_chars]. now rewrite <- !app_assoc.
Qed.

Lemma startswith_split (p s : string) :
  startswith p s = true -> exists rest, s = p ++ rest.
Proof.
  revert s; induction p as [|c p IH]; intros s H; [now exists s|].
  destruct s as [|d s]; [discriminate|]. simpl in H.
  apply andb_true_iff in H as [Hc Hp]. apply Ascii.eqb_eq in Hc. subst d.
  destruct (IH s Hp) as (rest & ->). now exists rest.
Qed.

Lemma startswith_append (p rest : string) : startswith p (p ++ rest) = true.
Proof.
  induction p as [|c p IH]; [reflexivity|]. simpl.
  now rewrite Ascii.eqb_refl, IH.
Qed.

Lemma run_lit_miss (s : string) :
  forall (k : cont) (b : list ascii) (a : string) (cs : caps),
    startswith s a = false -> run (lit s) k b a cs = None.
Proof.
  intros k b a cs Hmiss.
  destruct (run (lit s) k b a cs) as [res|] eqn:E; [|reflexivity].
  apply run_sound in E as (b' & a' & cs' & Hm & _).
  apply matches_lit in Hm as (-> & _).
  now rewrite startswith_append in Hmiss.
Qed.

Lemma run_lit_start (s : string) (k : cont) (b : list ascii) (a : string)
  (cs : caps) :
  startswith s a = true ->
  exists a', run (lit s) k b a cs = k (rev_chars s +++ b) a' cs.
Proof.
  intros H. destruct (startswith_split s a H) as (rest & ->).
  exists rest. apply run_lit_hit.
Qed.

Lemma search_from_eq (r : regex) (b : list ascii) (a : string) :
  search_from r b a
  = match run r accept b a [] with
    | Some cs => Some cs
    | None =>
        match a with
        | EmptyString => None
        | String c a' => search_from r (c :: b) a'
        end
    end.
Proof. now destruct a. Qed.

(** Searching for a literal is looking for a substring. *)
Lemma search_lit (s : string) (a : string) :
  forall b,
    (exists cs, search_from (lit s) b a = Some cs) <-> contains s a = true.
Proof.
  induction a as [|c a IH]; intros b; rewrite search_from_eq.
  - simpl contains. rewrite orb_false_r.
    destruct (startswith s "") eqn:E.
    + destruct (run_lit_start s accept b "" [] E) as (a' & ->).
      split; [reflexivity | now eexists].
    + rewrite (run_lit_miss s accept b "" [] E).
      split; [intros [cs H]; discriminate | discriminate].
  - rewrite TextFacts.contains_cons.
    destruct (startswith s (String c a)) eqn:E.
    + destruct (run_lit_start s accept b _ [] E) as (a' & ->).
      split; [reflexivity | now eexists].
    + rewrite (run_lit_miss s accept b _ [] E). simpl. apply IH.
Qed.

Lemma re_search_lit (s line : string) :
  re_search (lit s) line = contains s line.
Proof.
  unfold re_search.
  pose proof (search_lit s line []) as H.
  destruct (search_from (lit s) [] line) as [cs|].
  - symmetry. apply H. now exists cs.
  - destruct (contains s line); [|reflexivity].
    destruct (proj2 H eq_refl) as [cs Hcs]. discriminate.
Qed.


Lemma contains_start (p s : string) : startswith p s = true -> contains p s = true.
Proof. intros H. destruct s; simpl; now rewrite H. Qed.

Lemma contains_app_r (p x y : string) :
  contains p y = true -> contains p (x ++ y) = true.
Proof.
  intros H. induction x as [|c x IH]; [exact H|].
  change (String c x ++ y) with (String c (x ++ y)).
  rewrite TextFacts.contains_cons, IH. apply orb_true_r.
Qed.

Lemma search_from_sound (r : regex) (a : string) :
  forall (b : list ascii) (cs : caps),
    search_from r b a = Some cs ->
    exists x a0 b0, a = x ++ a0 /\ run r accept b0 a0 [] = Some cs.
Proof.
  induction a as [|c a IH]; intros b cs H; rewrite search_from_eq in H.
  - destruct (run r accept b "" []) as [cs'|] eqn:E; [|discriminate].
    injection H as <-. now exists "", "", b.
  - destruct (run r accept b (String c a) []) as [cs'|] eqn:E.
    + injection H as <-. now exists "", (String c a), b.
    + destruct (IH _ _ H) as (x & a0 & b0 & -> & Hrun).
      now exists (String c x), a0, b0.
Qed.

(** A pattern found in a line is matched at some place of the line. *)
Lemma re_search_sound (r : regex) (line : string) :
  re_search r line = true ->
  exists x a0 b0 b' a' cs',
    line = x ++ a0 /\ matches r b0 a0 [] b' a' cs'.
Proof.
  unfold re_search. destruct (search_from r [] line) as [cs|] eqn:E; [|discriminate].
  intros _. destruct (search_from_sound r line [] cs E) as (x & a0 & b0 & Hl & Hrun).
  apply run_sound in Hrun as (b' & a' & cs' & Hm & _).
  now exists x, a0, b0, b', a', cs'.
Qed.

Lemma matches_starts_lit (s : string) (rest : regex) (b : list ascii)
  (a : string) (cs : caps) (b' : list ascii) (a' : string) (cs' : caps) :
  matches (Seq (lit s) rest) b a cs b' a' cs' -> contains s a = true.
Proof.
  intros H. apply matches_seq in H as (b1 & a1 & cs1 & Hlit & _).
  apply matches_lit in Hlit as (-> & _).
  apply contains_start, startswith_append.
Qed.

Lemma matches_then_lit (first : regex) (s : string) (rest : regex)
  (b : list ascii) (a : string) (cs : caps) (b' : list ascii) (a' : string)
  (cs' : caps) :
  matches (Seq first (Seq (lit s) rest)) b a cs b' a' cs' ->
  contains s a = true.
Proof.
  intros H. apply matches_seq in H as (b1 & a1 & cs1 & Hfirst & Hrest).
  apply matches_consumes in Hfirst as (x & -> & _).
  apply contains_app_r. exact (matches_starts_lit _ _ _ _ _ _ _ _ Hrest).
Qed.

Lemma matches_then_last_lit (first : regex) (s : string)
  (b : list ascii) (a : string) (cs : caps) (b' : list ascii) (a' : string)
  (cs' : caps) :
  matches (Seq first (lit s)) b a cs b' a' cs' -> contains s a = true.
Proof.
  intros H. apply matches_seq in H as (b1 & a1 & cs1 & Hfirst & Hlit).
  apply matches_consumes in Hfirst as (x & -> & _).
  apply matches_lit in Hlit as (-> & _).
  apply contains_app_r, contains_start, startswith_append.
Qed.

Lemma matches_two_lits (s1 s2 : string) (rest : regex) (b : list ascii)
  (a : string) (cs : caps) (b' : list ascii) (a' : string) (cs' : caps) :
  matches (Seq (lit s1) (Seq (lit s2) rest)) b a cs b' a' cs' ->
  contains (s1 ++ s2) a = true.
Proof.
  intros H. apply matches_seq in H as (b1 & a1 & cs1 & H1 & H).
  apply matches_lit in H1 as (-> & _).
  apply matches_seq in H as (b2 & a2 & cs2 & H2 & _).
  apply matches_lit in H2 as (-> & _).
  rewrite <- append_assoc. apply contains_start, startswith_append.
Qed.

Lemma keyword_in_match (config : Rule) (line : string) :
  In config CHECK_PATTERNS ->
  re_search (rule_pattern config) line = true ->
  contains (keyword config) line = true.
Proof.
  intros Hin Hfound.
  apply re_search_sound in Hfound as (x & a0 & b0 & b' & a' & cs' & -> & Hm).
  apply contains_app_r.
  simpl in Hin.
  repeat (destruct Hin as [<-|Hin]); [ .. | contradiction ];
    cbn [rule_pattern rule_unwrap rule_unwrap_or_default rule_unwrap_or
         rule_let_underscore rule_assert rule_expect_short rule_panic_short
         rule_ok rule_parse_unwrap rule_direct_index rule_todo seqs] in Hm.
  - exact (matches_then_lit _ _ _ _ _ _ _ _ _ Hm).
  - apply matches_lit in Hm as (-> & _).
    apply contains_start, startswith_append.
  - exact (matches_starts_lit _ _ _ _ _ _ _ _ Hm).
  - exact (matches_starts_lit _ _ _ _ _ _ _ _ Hm).
  - exact (matches_starts_lit _ _ _ _ _ _ _ _ Hm).
  - exact (matches_two_lits _ _ _ _ _ _ _ _ _ Hm).
  - exact (matches_two_lits _ _ _ _ _ _ _ _ _ Hm).
  - exact (matches_starts_lit _ _ _ _ _ _ _ _ Hm).
  - apply matches_lit in Hm as (-> & _).
    apply contains_start, startswith_append.
  - exact (matches_then_lit _ _ _ _ _ _ _ _ _ Hm).
  - exact (matches_then_last_lit _ _ _ _ _ _ _ _ Hm).
Qed.


(** X18. Every issue of a scan is on a line that holds the text its rule
    looks for: [unwrap()], [.unwrap_or_default()], [.unwrap_or(], [let],
    [assert!(], [.expect(] and [panic!(] with an opening double quote,
    [.ok()], [.parse().unwrap()], an opening square bracket, or [!(] for the
    rule of [todo!] and [unimplemented!]. *)
Theorem issue_line_holds_keyword (path : string) (lines : list string)
  (i : Issue) :
  In i (check_lines path lines) ->
  exists (n : nat) (line : string) (config : Rule),
    nth_error lines n = Some line
    /\ In config CHECK_PATTERNS
    /\ i = issue_of path (S n) (strip line) config
    /\ contains (keyword config) line = true.
Proof.
  intros Hin.
  destruct (issue_origin path lines i Hin)
    as (n & line & config & Hnth & _ & Hcat & Hfound & Hi & _).
  exists n, line, config. repeat split; try assumption.
  now apply keyword_in_match.
Qed.

Lemma issue_line_holds_keyword_witness :
  exists (n : nat) (line : string) (config : Rule),
    nth_error sloppy_lines n = Some line
    /\ issue_of "crate/src/lib.rs" 2 "items[0]" rule_direct_index
       = issue_of "crate/src/lib.rs" (S n) (strip line) config
    /\ contains (keyword config) line = true.
Proof.
  destruct (issue_line_holds_keyword "crate/src/lib.rs" sloppy_lines
              (issue_of "crate/src/lib.rs" 2 "items[0]" rule_direct_index))
    as (n & line & config & Hnth & _ & Hi & Hkey).
  - vm_compute. left. reflexivity.
  - now exists n, line, config.
Defined.

Lemma same_issue_same_rule (path : string) (n : nat) (stripped : string)
  (config config' : Rule) :
  In config CHECK_PATTERNS -> In config' CHECK_PATTERNS ->
  issue_of path n stripped config = issue_of path n stripped config' ->
  config = config'.
Proof.
  intros H H' Heq. apply (f_equal category) in Heq.
  cbn [category issue_of] in Heq.
  simpl in H, H'.
  repeat (destruct H as [<-|H]); try contradiction;
    repeat (destruct H' as [<-|H']); try contradiction;
    first [reflexivity | discriminate Heq].
Qed.

(** On a line the scan looks at, a rule of the catalog has its issue
    reported exactly when its pattern is found in the line. *)
Lemma issue_reported_iff (path : string) (lines : list string) (n : nat)
  (line : string) (config : Rule) :
  nth_error lines n = Some line ->
  eligible line = true ->
  In config CHECK_PATTERNS ->
  (In (issue_of path (S n) (strip line) config) (check_lines path lines)
   <-> re_search (rule_pattern config) line = true).
Proof.
  intros Hnth Hel Hcat.
  assert (Hat : issues_at (S n) (check_lines path lines)
                = map (issue_of path (S n) (strip line)) (matching_rules line)).
  { rewrite (issues_at_check_lines path lines n line Hnth).
    unfold line_issues. simpl fst; simpl snd. now rewrite Hel. }
  split.
  - intros Hin.
    assert (Hin' : In (issue_of path (S n) (strip line) config)
                     (issues_at (S n) (check_lines path lines))).
    { unfold issues_at. apply filter_In. split; [exact Hin|].
      apply Nat.eqb_refl. }
    rewrite Hat in Hin'. apply in_map_iff in Hin' as (config' & Heq & Hm).
    unfold matching_rules in Hm. apply filter_In in Hm as [Hcat' Hfound].
    now rewrite (same_issue_same_rule _ _ _ _ _ Hcat Hcat' (eq_sym Heq)).
  - intros Hfound.
    assert (Hin' : In (issue_of path (S n) (strip line) config)
                     (issues_at (S n) (check_lines path lines))).
    { rewrite Hat. apply in_map. unfold matching_rules.
      apply filter_In. now split. }
    unfold issues_at in Hin'. now apply filter_In in Hin' as [Hin' _].
Qed.

(** X19. The two rules whose pattern is a plain text are exact: on a line
    the scan looks at, the HIGH issue of [unwrap_or_default] is reported if
    and only if the line holds [.unwrap_or_default()], and the MEDIUM issue
    of [parse().unwrap] if and only if it holds [.parse().unwrap()]. *)
Theorem literal_rules_are_exact (path : string) (lines : list string)
  (n : nat) (line : string) :
  nth_error lines n = Some line ->
  eligible line = true ->
  (In (issue_of path (S n) (strip line) rule_unwrap_or_default)
      (check_lines path lines)
   <-> contains ".unwrap_or_default()" line = true)
  /\ (In (issue_of path (S n) (strip line) rule_parse_unwrap)
         (check_lines path lines)
      <-> contains ".parse().unwrap()" line = true)
  /\ rule_severity rule_unwrap_or_default = HIGH
  /\ rule_severity rule_parse_unwrap = MEDIUM.
Proof.
  intros Hnth Hel. repeat split; try reflexivity.
  - intros Hin.
    apply (issue_reported_iff path lines n line _ Hnth Hel) in Hin.
    + now rewrite <- re_search_lit.
    + simpl. tauto.
  - intros Hsub.
    apply (issue_reported_iff path lines n line _ Hnth Hel).
    + simpl. tauto.
    + cbn [rule_pattern rule_unwrap_or_default]. now rewrite re_search_lit.
  - intros Hin.
    apply (issue_reported_iff path lines n line _ Hnth Hel) in Hin.
    + now rewrite <- re_search_lit.
    + simpl. tauto.
  - intros Hsub.
    apply (issue_reported_iff path lines n line _ Hnth Hel).
    + simpl. tauto.
    + cbn [rule_pattern rule_parse_unwrap]. now rewrite re_search_lit.
Qed.

Lemma literal_rules_are_exact_witness :
  In (issue_of "crate/src/lib.rs" 3
        "std::env::var(KEY).unwrap().parse().unwrap()" rule_parse_unwrap)
     (check_lines "crate/src/lib.rs" risky_lines).
Proof.
  apply (proj1 (proj2 (literal_rules_are_exact "crate/src/lib.rs" risky_lines 2
                         ("    std::env::var(KEY).unwrap().parse().unwrap()" ++ nl)
                         eq_refl eq_refl))).
  reflexivity.
Defined.

End RuleFacts.

(** ** The diagnosis of a timed-out command *)

Module TimeoutFacts.

Import Text Re ReSpec ReFacts Py RunRustTests Digits TextFacts PyFacts.
Import RunRustTestsFacts.

Lemma uint_digits (d : Decimal.uint) :
  all_in is_digit (NilEmpty.string_of_uint d) = true.
Proof. induction d; simpl; try reflexivity; exact IHd. Qed.

Lemma all_in_weaken (p q : ascii -> bool) (s : string) :
  (forall c, p c = true -> q c = true) ->
  all_in p s = true -> all_in q s = true.
Proof.
  intros Hpq. induction s as [|c s IH]; [reflexivity|]. simpl.
  intros H. apply andb_true_iff in H as [Hc Hs].
  now rewrite (Hpq c Hc), IH.
Qed.

Lemma str_int_chars (z : Z) :
  all_in sign_or_digit (str_int z) = true /\ str_int z <> "".
Proof.
  unfold str_int, NilZero.string_of_int, NilZero.string_of_uint.
  assert (Hd : forall d, all_in sign_or_digit (NilEmpty.string_of_uint d) = true).
  { intros d. apply (all_in_weaken is_digit); [|apply uint_digits].
    intros c Hc. unfold sign_or_digit. now rewrite Hc. }
  destruct (Z.to_int z) as [d|d]; destruct d; simpl; split;
    try reflexivity; try discriminate; apply (Hd _).
Qed.

Lemma lower_append (x y : string) : lower (x ++ y) = lower x ++ lower y.
Proof. induction x as [|c x IH]; simpl; [reflexivity | now rewrite IH]. Qed.

Lemma lower_sign_or_digit (s : string) :
  all_in sign_or_digit s = true -> lower s = s.
Proof.
  induction s as [|c s IH]; [reflexivity|]. simpl. intros H.
  apply andb_true_iff in H as [Hc Hs]. rewrite (IH Hs). f_equal.
  unfold lower_char.
  destruct (is_upper c) eqn:Hup; [|reflexivity].
  exfalso. revert Hc Hup.
  destruct c as [[] [] [] [] [] [] [] []]; vm_compute; congruence.
Qed.

(** A text without characters of a class starts a text, or not, whatever
    follows a character of the class. *)
Lemma startswith_before (D : ascii -> bool) (p : string) :
  all_in (fun c => negb (D c)) p = true ->
  forall (a : string) (d : ascii) (rest : string),
    D d = true ->
    startswith p (a ++ String d rest) = startswith p a.
Proof.
  induction p as [|c p IH]; intros Hp a d rest Hd; [reflexivity|].
  simpl in Hp. apply andb_true_iff in Hp as [Hc Hp].
  destruct a as [|e a]; simpl.
  - destruct (Ascii.eqb_spec c d) as [->|_]; [|reflexivity].
    rewrite Hd in Hc. discriminate.
  - now rewrite (IH Hp a d rest Hd).
Qed.

Lemma contains_around (D : ascii -> bool) (p : string) :
  all_in (fun c => negb (D c)) p = true ->
  forall (a : string) (d : ascii) (rest : string),
    D d = true ->
    contains p (a ++ String d rest) = contains p a || contains p rest.
Proof.
  intros Hp a d rest Hd. induction a as [|e a IH].
  - change ("" ++ String d rest) with (String d rest).
    rewrite contains_cons.
    change (startswith p (String d rest))
      with (startswith p ("" ++ String d rest)).
    rewrite (startswith_before D p Hp "" d rest Hd).
    f_equal. simpl. now rewrite orb_false_r.
  - change (String e a ++ String d rest) with (String e (a ++ String d rest)).
    rewrite !contains_cons, IH.
    change (String e (a ++ String d rest)) with (String e a ++ String d rest).
    rewrite (startswith_before D p Hp (String e a) d rest Hd).
    now rewrite orb_assoc.
Qed.

Lemma contains_skip (D : ascii -> bool) (p : string) :
  all_in (fun c => negb (D c)) p = true ->
  p <> "" ->
  forall (m rest : string),
    all_in D m = true ->
    contains p (m ++ rest) = contains p rest.
Proof.
  intros Hp Hne m rest. induction m as [|d m IH]; intros Hm; [reflexivity|].
  simpl in Hm. apply andb_true_iff in Hm as [Hd Hm].
  change (String d m ++ rest) with ("" ++ String d (m ++ rest)).
  rewrite (contains_around D p Hp "" d (m ++ rest) Hd), (IH Hm).
  destruct p; [contradiction | reflexivity].
Qed.

(** A text without digits and sign occurs around a number only before it or
    after it. *)
Lemma contains_around_number (p before number after : string) :
  all_in (fun c => negb (sign_or_digit c)) p = true ->
  p <> "" ->
  all_in sign_or_digit number = true ->
  number <> "" ->
  contains p (before ++ number ++ after)
  = contains p before || contains p after.
Proof.
  intros Hp Hne Hnum Hnonempty.
  destruct number as [|d m]; [contradiction|].
  simpl in Hnum. apply andb_true_iff in Hnum as [Hd Hm].
  change (before ++ String d m ++ after)
    with (before ++ String d (m ++ after)).
  rewrite (contains_around sign_or_digit p Hp before d (m ++ after) Hd).
  now rewrite (contains_skip sign_or_digit p Hp Hne m after Hm).
Qed.

Lemma timeout_text_has_no_signature (z : Z) (sig : string) (d : Diagnosis) :
  In (sig, d) patterns ->
  contains (lower sig)
    (lower ("Command timed out after " ++ str_int z ++ " seconds")) = false.
Proof.
  intros Hin. destruct (str_int_chars z) as [Hchars Hne].
  rewrite !lower_append, (lower_sign_or_digit _ Hchars).
  simpl in Hin.
  repeat (destruct Hin as [Heq|Hin]; [injection Heq as <- _|]);
    try contradiction;
    (rewrite contains_around_number;
     [reflexivity | reflexivity | discriminate | exact Hchars | exact Hne]).
Qed.

(** X20. Whatever the timeout bound, the text [run_command] returns for a
    command that ran into it holds none of the signatures of
    [analyze_failure], the signature [timeout] included: its diagnosis is
    the default one. *)
Theorem timeout_text_gets_default_diagnosis (w : World)
  (command : list string) (dir : option Path) (timeout : Z) (l : log)
  (name : string) :
  subprocess_run w command dir timeout = inl TimeoutExpired ->
  exists err,
    run_command w command dir timeout l = (Returned ((-1)%Z, "", err), l)
    /\ analyze_failure err name = default_diagnosis.
Proof.
  intros Htimeout.
  exists ("Command timed out after " ++ str_int timeout ++ " seconds").
  split.
  - rewrite run_command_returns. unfold command_result. now rewrite Htimeout.
  - unfold analyze_failure. apply first_signature_none.
    intros sig d Hin. now apply (timeout_text_has_no_signature timeout sig d).
Qed.

Lemma timeout_text_witness :
  exists err,
    run_command stalled_world ["cargo"; "test"] None 30 []
    = (Returned ((-1)%Z, "", err), [])
    /\ analyze_failure err "test_login" = default_diagnosis.
Proof.
  exact (timeout_text_gets_default_diagnosis stalled_world ["cargo"; "test"]
           None 30 [] "test_login" eq_refl).
Defined.

End TimeoutFacts.

(** ** The frame of the two reports *)

Module FrameFacts.

Import Text Re Py ReFacts.

Lemma join_cons (sep x y : string) (rest : list string) :
  join sep (x :: y :: rest) = x ++ sep ++ join sep (y :: rest).
Proof. reflexivity. Qed.

Lemma join_snoc (sep : string) (xs : list string) (last : string) :
  xs <> [] -> join sep (xs +++ [last]) = join sep xs ++ sep ++ last.
Proof.
  induction xs as [|x xs IH]; intros Hne; [contradiction|].
  destruct xs as [|y xs].
  - reflexivity.
  - change ((x :: y :: xs) +++ [last]) with (x :: (y :: xs) +++ [last]).
    change ((y :: xs) +++ [last]) with (y :: (xs +++ [last])) at 1.
    rewrite join_cons.
    change (y :: (xs +++ [last])) with ((y :: xs) +++ [last]).
    rewrite IH by discriminate.
    rewrite join_cons. now rewrite !append_assoc.
Qed.

Lemma fold_append_only {A : Type} (f : list string -> A -> list string)
  (xs : list A) :
  (forall acc x, f acc x = acc +++ f [] x) ->
  forall acc, fold_left f xs acc = acc +++ fold_left f xs [].
Proof.
  intros Hf. induction xs as [|x xs IH]; intros acc; simpl.
  - now rewrite app_nil_r.
  - rewrite IH, (IH (f [] x)), (Hf acc x). now rewrite app_assoc.
Qed.

End FrameFacts.

Module AuditReportFacts.

Import Text Re Py ReFacts CheckErrorTolerance Audit AuditFacts FrameFacts.

Ltac pull_accumulator lemma :=
  repeat match goal with
         | |- context [fold_left ?f ?xs ?acc] =>
             lazymatch acc with
             | [] => fail
             | _ => rewrite (fold_append_only f xs lemma acc)
             end
         end.

Lemma example_line_append (acc : list string) (example_line : string) :
  acc +++ ["    " ++ example_line] = acc +++ ([] +++ ["    " ++ example_line]).
Proof. reflexivity. Qed.

Lemma issue_lines_append (lines : list string) (i : Issue) :
  issue_lines lines i = lines +++ issue_lines [] i.
Proof.
  unfold issue_lines. destruct (nonempty (example i)).
  - pull_accumulator example_line_append.
    cbn [app]. now rewrite <- !app_assoc.
  - cbn [app]. now rewrite <- !app_assoc.
Qed.

Lemma file_lines_append (lines : list string) (item : string * list Issue) :
  file_lines lines item = lines +++ file_lines [] item.
Proof.
  destruct item as [path file_issues]. unfold file_lines.
  pull_accumulator issue_lines_append.
  cbn [app]. now rewrite <- !app_assoc.
Qed.

Lemma severity_lines_append (d : BySeverity) (lines : list string)
  (sev : Severity) :
  severity_lines d lines sev = lines +++ severity_lines d [] sev.
Proof.
  unfold severity_lines. destruct (of_severity d sev) as [|i rest].
  - now rewrite app_nil_r.
  - pull_accumulator file_lines_append.
    cbn [app]. now rewrite <- !app_assoc.
Qed.

(** X21. The report of the auditor is the all-clear text for the empty
    list and for no other; for a list that is not empty it starts with the
    title and the number of issues and ends with the three rows of the
    summary table, which give the numbers of HIGH, MEDIUM and LOW issues. *)
Theorem report_frame (issues : list Issue) :
  (format_report issues = "✅ 未发现错误容忍问题！" <-> issues = [])
  /\ (issues <> [] ->
      exists middle,
        format_report issues
        = "# Rust 错误容忍检查报告" ++ nl ++ nl
          ++ "共发现 " ++ str_nat (List.length issues) ++ " 个问题" ++ nl ++ nl
          ++ middle ++ nl
          ++ "| 🔴 高 | " ++ str_nat (List.length (with_severity HIGH issues))
          ++ " | P0 - 立即修复 |" ++ nl
          ++ "| 🟡 中 | " ++ str_nat (List.length (with_severity MEDIUM issues))
          ++ " | P1 - 尽快修复 |" ++ nl
          ++ "| 🟢 低 | " ++ str_nat (List.length (with_severity LOW issues))
          ++ " | P2 - 改进代码质量 |").
Proof.
  assert (Hframe : issues <> [] ->
    exists middle,
      format_report issues
      = "# Rust 错误容忍检查报告" ++ nl ++ nl
        ++ "共发现 " ++ str_nat (List.length issues) ++ " 个问题" ++ nl ++ nl
        ++ middle ++ nl
        ++ "| 🔴 高 | " ++ str_nat (List.length (with_severity HIGH issues))
        ++ " | P0 - 立即修复 |" ++ nl
        ++ "| 🟡 中 | " ++ str_nat (List.length (with_severity MEDIUM issues))
        ++ " | P1 - 尽快修复 |" ++ nl
        ++ "| 🟢 低 | " ++ str_nat (List.length (with_severity LOW issues))
        ++ " | P2 - 改进代码质量 |").
  { intros Hne. destruct issues as [|i rest]; [contradiction|].
    unfold format_report.
    fold (by_severity (i :: rest)).
    destruct (severity_groups_split (i :: rest)) as (-> & -> & ->).
    rewrite (fold_append_only (severity_lines (by_severity (i :: rest))) _
               (severity_lines_append (by_severity (i :: rest)))).
    set (blocks := fold_left (severity_lines (by_severity (i :: rest)))
                     [HIGH; MEDIUM; LOW] []).
    set (n := List.length (i :: rest)).
    set (h := List.length (with_severity HIGH (i :: rest))).
    set (m := List.length (with_severity MEDIUM (i :: rest))).
    set (l := List.length (with_severity LOW (i :: rest))).
    exists (join nl (blocks +++ [ nl ++ "---" ++ nl;
                                  "## 📊 汇总统计" ++ nl ++ nl;
                                  "| 严重度 | 问题数量 | 优先级 |";
                                  "|--------|----------|--------|" ])).
    set (title := "# Rust 错误容忍检查报告" ++ nl).
    set (count := "共发现 " ++ str_nat n ++ " 个问题" ++ nl).
    set (tail4 := [ nl ++ "---" ++ nl; "## 📊 汇总统计" ++ nl ++ nl;
                    "| 严重度 | 问题数量 | 优先级 |";
                    "|--------|----------|--------|" ]).
    set (r1 := "| 🔴 高 | " ++ str_nat h ++ " | P0 - 立即修复 |").
    set (r2 := "| 🟡 中 | " ++ str_nat m ++ " | P1 - 尽快修复 |").
    set (r3 := "| 🟢 低 | " ++ str_nat l ++ " | P2 - 改进代码质量 |").
    replace ((([title; count] +++ blocks) +++ tail4) +++ [r1; r2; r3])
      with (title :: count :: (((blocks +++ tail4) +++ [r1]) +++ [r2]) +++ [r3])
      by (simpl; now rewrite <- !app_assoc).
    assert (Hb : blocks +++ tail4 <> []).
    { unfold tail4. intros H. apply app_eq_nil in H as [_ H]. discriminate. }
    assert (Hc : forall xs : list string, xs <> [] -> forall x, xs +++ [x] <> []).
    { intros xs _ x H. apply app_eq_nil in H as [_ H]. discriminate. }
    destruct ((((blocks +++ tail4) +++ [r1]) +++ [r2]) +++ [r3]) as [|y ys] eqn:E.
    { exfalso. apply app_eq_nil in E as [_ E]. discriminate. }
    rewrite join_cons, join_cons, <- E.
    rewrite !join_snoc by auto.
    unfold title, count, r1, r2, r3.
    now rewrite !append_assoc. }
  split; [|exact Hframe].
  split.
  - intros Hclear. destruct issues as [|i rest]; [reflexivity|].
    destruct Hframe as [middle Hm]; [discriminate|].
    rewrite Hm in Hclear. discriminate Hclear.
  - intros ->. reflexivity.
Qed.

End AuditReportFacts.

Module TestReportFacts.

Import Text Re Py ReFacts RunRustTests FrameFacts.

Ltac pull_accumulator lemma :=
  repeat match goal with
         | |- context [fold_left ?f ?xs ?acc] =>
             lazymatch acc with
             | [] => fail
             | _ => rewrite (fold_append_only f xs lemma acc)
             end
         end.

Lemma failed_lines_append (lines : list string) (r : TestResult) :
  failed_lines lines r = lines +++ failed_lines [] r.
Proof.
  unfold failed_lines.
  destruct (fixable r); destruct (nonempty (error_message r));
    cbn [app]; now rewrite <- ?app_assoc.
Qed.

Lemma passed_line_append (acc : list string) (r : TestResult) :
  acc +++ ["- " ++ test_name r] = acc +++ ([] +++ ["- " ++ test_name r]).
Proof. reflexivity. Qed.

Lemma test_report_lines (results : list TestResult) :
  exists more,
    format_test_report results
    = join nl
        ([ "# Rust 测试报告" ++ nl;
           "## 📊 统计" ++ nl;
           "- 总测试数: " ++ str_nat (List.length results);
           "- ✅ 通过: " ++ str_nat (List.length (with_status PASSED results));
           "- ❌ 失败: " ++ str_nat (List.length (with_status FAILED results));
           "- ⚠️  忽略: " ++ str_nat (List.length (with_status IGNORED results))
             ++ nl ] +++ more).
Proof.
  unfold format_test_report.
  destruct (with_status FAILED results) as [|f fs] eqn:Ef;
    destruct (with_status PASSED results) as [|p ps] eqn:Ep;
    try destruct (10 <? List.length (p :: ps))%nat;
    pull_accumulator failed_lines_append;
    pull_accumulator passed_line_append;
    cbn [app]; rewrite <- ?app_assoc; cbn [app];
    eexists; reflexivity.
Qed.

Lemma status_counts (results : list TestResult) :
  Forall (fun r => status r <> TIMEOUT) results ->
  (List.length (with_status PASSED results)
   + List.length (with_status FAILED results)
   + List.length (with_status IGNORED results))%nat
  = List.length results.
Proof.
  unfold with_status. induction 1 as [|r rest Hr _ IH]; [reflexivity|].
  simpl. destruct (status r); simpl; try lia. congruence.
Qed.

(** X22. The report of the test wrapper starts with the title and the
    statistics: the number of results and the numbers of passed, failed and
    ignored ones; when no result has status TIMEOUT, as for every result the
    wrapper builds, these three numbers add up to the first. *)
Theorem test_report_frame (results : list TestResult) :
  (exists rest,
     format_test_report results
     = "# Rust 测试报告" ++ nl ++ nl
       ++ "## 📊 统计" ++ nl ++ nl
       ++ "- 总测试数: " ++ str_nat (List.length results) ++ nl
       ++ "- ✅ 通过: " ++ str_nat (List.length (with_status PASSED results)) ++ nl
       ++ "- ❌ 失败: " ++ str_nat (List.length (with_status FAILED results)) ++ nl
       ++ "- ⚠️  忽略: " ++ str_nat (List.length (with_status IGNORED results)) ++ nl
       ++ rest)
  /\ (Forall (fun r => status r <> TIMEOUT) results ->
      (List.length (with_status PASSED results)
       + List.length (with_status FAILED results)
       + List.length (with_status IGNORED results))%nat
      = List.length results).
Proof.
  split; [|apply status_counts].
  destruct (test_report_lines results) as [more ->].
  cbn [app]. rewrite !join_cons.
  exists (match more with
          | [] => ""
          | _ :: _ => nl ++ join nl more
          end).
  repeat rewrite append_assoc.
  repeat f_equal.
  destruct more as [|x xs]; [reflexivity|].
  rewrite join_cons. now rewrite !append_assoc.
Qed.

End TestReportFacts.
